(** * covfmt: Go cover profiles to lcov records

    A shallow embedding of [main.go] and of the parts of the Go standard
    library it calls ([strings], [strconv], [path/filepath] on a Unix
    target), followed by the properties of the parser, the path resolver,
    the repository root locator and the lcov emitter.

    Conventions.  A Go [string] is a [string] (a sequence of bytes); a Go
    [int] is a [Z] kept inside the 64-bit two's complement range, every
    increment being wrapped explicitly ([wrap]); a run-time panic is the
    [Panic] outcome; the package cache is a [gmap] inside an explicit
    state that also logs every call made to [build.Import]. *)

From Stdlib Require Import ZArith Lia Ascii String List Bool.
From stdpp Require Import gmap strings list.
From Equations Require Import Equations.

Local Open Scope Z_scope.

(** ** Machine integers *)

Definition intSize : Z := 64.
Definition maxInt : Z := 2 ^ (intSize - 1) - 1.
Definition minInt : Z := - 2 ^ (intSize - 1).
Definition maxUint64 : Z := 2 ^ 64 - 1.

(** The value an [int] holds after an arithmetic result [z]. *)
Definition wrap (z : Z) : Z := (z - minInt) mod 2 ^ intSize + minInt.

Definition inInt (z : Z) : Prop := minInt <= z <= maxInt.

(** ** Package [strings] *)

Module strings.

(** [strings.HasPrefix s prefix] *)
Fixpoint HasPrefix (s prefix : string) : bool :=
  match prefix, s with
  | EmptyString, _ => true
  | String _ _, EmptyString => false
  | String p prefix', String c s' => Ascii.eqb c p && HasPrefix s' prefix'
  end.

(** [s[n:]], for [n <= len(s)]. *)
Fixpoint drop (n : nat) (s : string) : string :=
  match n, s with
  | O, _ => s
  | S n', String _ s' => drop n' s'
  | S _, EmptyString => EmptyString
  end.

(** [strings.TrimPrefix s prefix] *)
Definition TrimPrefix (s prefix : string) : string :=
  if HasPrefix s prefix then drop (String.length prefix) s else s.

(** [strings.Split s sep] for a separator of one byte, the only kind
    [main.go] passes: the substrings between the occurrences of [sep], in
    order; one more element than there are occurrences. *)
Fixpoint Split (s : string) (sep : ascii) : list string :=
  match s with
  | EmptyString => [EmptyString]
  | String c s' =>
      if Ascii.eqb c sep then EmptyString :: Split s' sep
      else match Split s' sep with
           | seg :: segs => String c seg :: segs
           | [] => [String c EmptyString]
           end
  end.

(** [strings.Count s sep] for a separator of one byte. *)
Fixpoint Count (s : string) (sep : ascii) : nat :=
  match s with
  | EmptyString => O
  | String c s' => if Ascii.eqb c sep then S (Count s' sep) else Count s' sep
  end.

Definition IndexByte (chars : string) (c : ascii) : bool :=
  negb (Count chars c =? 0)%nat.

(** [strings.ContainsAny s chars] *)
Fixpoint ContainsAny (s chars : string) : bool :=
  match s with
  | EmptyString => false
  | String c s' => IndexByte chars c || ContainsAny s' chars
  end.

End strings.

(** ** Package [strconv] *)

Module strconv.

Inductive NumError : Type := ErrSyntax | ErrRange.

Definition isDigit (c : ascii) : bool :=
  let n := Z.of_N (N_of_ascii c) in (48 <=? n) && (n <=? 57).

Definition digitVal (c : ascii) : Z := Z.of_N (N_of_ascii c) - 48.

Definition digitChar (d : Z) : ascii := ascii_of_N (Z.to_N (48 + d)).

(** The digit loop of [ParseUint s 10 64]: a byte that is not a decimal
    digit is a syntax error; the loop returns [maxUint64] and a range error
    as soon as the accumulated value leaves the unsigned 64-bit range,
    without looking at the bytes that follow. *)
Fixpoint parseUintLoop (s : string) (n : Z) : Z * option NumError :=
  match s with
  | EmptyString => (n, None)
  | String c s' =>
      if negb (isDigit c) then (0, Some ErrSyntax)
      else if maxUint64 / 10 + 1 <=? n then (maxUint64, Some ErrRange)
      else let n1 := n * 10 + digitVal c in
           if maxUint64 <? n1 then (maxUint64, Some ErrRange)
           else parseUintLoop s' n1
  end.

Definition ParseUint (s : string) : Z * option NumError :=
  match s with
  | EmptyString => (0, Some ErrSyntax)
  | _ => parseUintLoop s 0
  end.

(** [ParseInt s 10 0] on a 64-bit target. *)
Definition ParseInt (s : string) : Z * option NumError :=
  match s with
  | EmptyString => (0, Some ErrSyntax)
  | String c s' =>
      let neg := Ascii.eqb c "-" in
      let digits := if Ascii.eqb c "+" || neg then s' else s in
      match ParseUint digits with
      | (_, Some ErrSyntax) => (0, Some ErrSyntax)
      | (un, _) =>
          let cutoff := 2 ^ (intSize - 1) in
          if negb neg && (cutoff <=? un) then (cutoff - 1, Some ErrRange)
          else if neg && (cutoff <? un) then (- cutoff, Some ErrRange)
          else (if neg then - un else un, None)
      end
  end.

(** [strconv.Atoi]: documented as [ParseInt(s, 10, 0)] converted to [int]. *)
Definition Atoi (s : string) : Z * option NumError := ParseInt s.

(** The digit loop of [formatBits]: the digits of [u] are produced from
    the least significant one and stored in front of [acc]. *)
Equations? formatLoop (u : Z) (acc : string) : string by wf (Z.to_nat (Z.log2 u)) lt :=
  formatLoop u acc with Z_lt_dec u 10 => {
    | left _ := String (digitChar u) acc;
    | right _ := formatLoop (u / 10) (String (digitChar (u mod 10)) acc) }.
Proof.
  assert (Z.log2 (u / 10) < Z.log2 u); [| pose proof (Z.log2_nonneg (u / 10)); lia].
  assert (Hle : Z.log2 (u / 10) <= Z.log2 (u / 2 ^ 3)).
  { apply Z.log2_le_mono. apply Z.div_le_compat_l; lia. }
  rewrite <- Z.shiftr_div_pow2, Z.log2_shiftr in Hle by lia.
  assert (3 <= Z.log2 u) by (apply Z.log2_le_pow2; lia).
  lia.
Qed.

(** [strconv.Itoa i], that is [FormatInt(int64(i), 10)]. *)
Definition Itoa (i : Z) : string :=
  if i <? 0 then String "-" (formatLoop (- i) EmptyString)
  else formatLoop i EmptyString.

End strconv.

(** ** Package [path/filepath], Unix target

    The separator is the byte ['/'] and there are no volume names. *)

Module filepath.

Definition isSep (c : ascii) : bool := Ascii.eqb c "/".
Definition isDot (c : ascii) : bool := Ascii.eqb c ".".

(** [filepath.Split path]: the path up to and including its last
    separator, and what follows it. *)
Fixpoint Split (path : string) : string * string :=
  match path with
  | EmptyString => (EmptyString, EmptyString)
  | String c rest =>
      let (dir, file) := Split rest in
      if isSep c || negb (String.eqb dir EmptyString) then (String c dir, file)
      else (EmptyString, String c file)
  end.

(** [r == n || os.IsPathSeparator(path[r])]: the element read so far ends
    here. *)
Definition endOfElem (p : string) : bool :=
  match p with
  | EmptyString => true
  | String c _ => isSep c
  end.

(** The output buffer of [Clean] is kept as the list of its bytes, last
    byte first; its write index [out.w] is the length of the list.

    [unwind x out dotdot] is the inner loop that drops a path element:
    [x] is the byte dropped last;
    [for out.w > dotdot && !os.IsPathSeparator(out.index(out.w)) { out.w-- }]. *)
Fixpoint unwind (x : ascii) (out : list ascii) (dotdot : nat) : list ascii :=
  match out with
  | [] => []
  | y :: out' =>
      if (dotdot <? length out)%nat && negb (isSep x) then unwind y out' dotdot
      else out
  end.

(** [out.w--] followed by the loop above. *)
Definition backtrack (out : list ascii) (dotdot : nat) : list ascii :=
  match out with
  | [] => []
  | x :: out' => unwind x out' dotdot
  end.

(** The main loop of [Clean], one byte of the path at a time.  [inElem]
    tells that the bytes of a real path element are being copied; outside
    an element the loop is at the start of the next one and distinguishes
    an empty element, [.], [..] and a real element, as the [switch] of the
    source does. *)
Fixpoint cleanLoop (rooted inElem : bool) (p : string) (out : list ascii)
    (dotdot : nat) {struct p} : list ascii :=
  match p with
  | EmptyString => out
  | String c p1 =>
      if inElem then
        if isSep c then cleanLoop rooted false p1 out dotdot
        else cleanLoop rooted true p1 (c :: out) dotdot
      else if isSep c then cleanLoop rooted false p1 out dotdot
      else if isDot c && endOfElem p1 then cleanLoop rooted false p1 out dotdot
      else
        let needSep :=
          if rooted then negb (length out =? 1)%nat
          else negb (length out =? 0)%nat in
        let real :=
          cleanLoop rooted true p1
            (c :: (if needSep then "/"%char :: out else out)) dotdot in
        match p1 with
        | String c2 p2 =>
            if isDot c && isDot c2 && endOfElem p2 then
              if (dotdot <? length out)%nat then
                cleanLoop rooted false p2 (backtrack out dotdot) dotdot
              else if negb rooted then
                let out' :=
                  "."%char :: "."%char ::
                    (if (0 <? length out)%nat then "/"%char :: out else out) in
                cleanLoop rooted false p2 out' (length out')
              else cleanLoop rooted false p2 out dotdot
            else real
        | EmptyString => real
        end
  end.

(** [filepath.Clean path] *)
Definition Clean (path : string) : string :=
  match path with
  | EmptyString => "."
  | String c p1 =>
      let out :=
        if isSep c then cleanLoop true false p1 ["/"%char] 1
        else cleanLoop false false path [] 0 in
      match out with
      | [] => "."
      | _ => string_of_list_ascii (rev out)
      end
  end.

(** [filepath.Join a b]: empty leading elements are ignored, the rest is
    joined with the separator and cleaned. *)
Definition Join (a b : string) : string :=
  if negb (String.eqb a EmptyString) then Clean (a +:+ "/" +:+ b)
  else if negb (String.eqb b EmptyString) then Clean b
  else EmptyString.

(** [filepath.Dir path]: all but the last element of the path, cleaned. *)
Definition Dir (path : string) : string := Clean (fst (Split path)).

(** *** The parent of a directory is shorter

    [Clean] never writes more bytes than it has read, and it drops a final
    separator; this is what makes the repeated ascent of
    [findRepositoryRoot] stop. *)

Fixpoint lastIsSep (p : string) : bool :=
  match p with
  | EmptyString => false
  | String c EmptyString => isSep c
  | String _ p1 => lastIsSep p1
  end.

Definition sepDue (rooted : bool) (out : list ascii) : nat :=
  if (if rooted then negb (length out =? 1)%nat else negb (length out =? 0)%nat)
  then 1%nat else 0%nat.

Definition cleanPre (rooted inElem : bool) (p : string) (out : list ascii)
    (n : nat) : Prop :=
  if inElem then (length out + String.length p <= n)%nat
  else (length out + String.length p + sepDue rooted out <= n)%nat
       \/ ((length out + String.length p <= n)%nat /\ endOfElem p = true).

Lemma unwind_length x out dd : (length (unwind x out dd) <= length out)%nat.
Proof.
  revert x. induction out as [|y out IH]; intros x; simpl; [lia|].
  destruct (_ && _); [specialize (IH y); lia | simpl; lia].
Qed.

Lemma backtrack_length out dd :
  out <> [] -> (length (backtrack out dd) < length out)%nat.
Proof.
  destruct out as [|x out]; [congruence|]. intros _. simpl.
  pose proof (unwind_length x out dd). lia.
Qed.

Lemma lastIsSep_cons c p :
  lastIsSep (String c p) = if String.eqb p EmptyString then isSep c else lastIsSep p.
Proof. destruct p; reflexivity. Qed.

Lemma cleanLoop_length rooted k :
  forall p inElem out dd n,
    String.length p = k ->
    cleanPre rooted inElem p out n ->
    (length (cleanLoop rooted inElem p out dd)
       + (if lastIsSep p then 1 else 0) <= n)%nat.
Proof.
  induction k as [k IH] using lt_wf_ind.
  intros p inElem out dd n Hk Hpre.
  destruct p as [|c p1].
  { simpl. unfold cleanPre in Hpre. destruct inElem; simpl in *; lia. }
  assert (IH1 : forall inElem' out' dd',
             cleanPre rooted inElem' p1 out' n ->
             (length (cleanLoop rooted inElem' p1 out' dd')
                + (if lastIsSep p1 then 1 else 0) <= n)%nat).
  { intros. eapply IH; [| reflexivity | eassumption]. simpl in Hk. lia. }
  rewrite lastIsSep_cons.
  assert (Hsep : forall out' dd',
             (length out' + String.length p1 + 1 <= n)%nat ->
             (length (cleanLoop rooted false p1 out' dd')
                + (if if String.eqb p1 EmptyString then true else lastIsSep p1
                   then 1 else 0) <= n)%nat).
  { intros out' dd' Hle. destruct p1 as [|c1 p1'].
    - simpl in *. lia.
    - change (String.eqb (String c1 p1') EmptyString) with false. cbv iota.
      apply IH1. left. unfold sepDue. destruct (if rooted then _ else _); lia. }
  unfold cleanPre in Hpre. simpl cleanLoop. simpl String.length in Hpre.
  destruct inElem.
  { destruct (isSep c) eqn:Hc.
    - apply Hsep. lia.
    - assert (Hgoal : (length (cleanLoop rooted true p1 (c :: out) dd)
                + (if lastIsSep p1 then 1 else 0) <= n)%nat).
      { apply IH1. unfold cleanPre. simpl. lia. }
      destruct (String.eqb p1 EmptyString); lia. }
  destruct (isSep c) eqn:Hc.
  { apply Hsep. destruct Hpre; lia. }
  assert (Hpre1 : (length out + S (String.length p1) + sepDue rooted out <= n)%nat).
  { destruct Hpre as [|[_ He]]; [assumption|]. simpl in He. congruence. }
  clear Hpre.
  destruct (isDot c && endOfElem p1) eqn:Hdot.
  { apply andb_true_iff in Hdot as [_ He].
    assert (Hgoal : (length (cleanLoop rooted false p1 out dd)
                + (if lastIsSep p1 then 1 else 0) <= n)%nat).
    { apply IH1. right. split; [lia | assumption]. }
    destruct (String.eqb p1 EmptyString); lia. }
  assert (Hreal : (length (cleanLoop rooted true p1
             (c :: (if (if rooted then negb (length out =? 1)%nat
                        else negb (length out =? 0)%nat)
                    then "/"%char :: out else out)) dd)
            + (if if String.eqb p1 EmptyString then false else lastIsSep p1
               then 1 else 0) <= n)%nat).
  { assert (Hgoal : (length (cleanLoop rooted true p1
             (c :: (if (if rooted then negb (length out =? 1)%nat
                        else negb (length out =? 0)%nat)
                    then "/"%char :: out else out)) dd)
            + (if lastIsSep p1 then 1 else 0) <= n)%nat).
    { apply IH1. unfold cleanPre. unfold sepDue in Hpre1.
      destruct (if rooted then _ else _); simpl; lia. }
    destruct (String.eqb p1 EmptyString); lia. }
  destruct p1 as [|c2 p2]; [simpl in Hreal |- *; exact Hreal|].
  destruct (isDot c && isDot c2 && endOfElem p2) eqn:Hdd; [|exact Hreal].
  apply andb_true_iff in Hdd as [Hdd He]. apply andb_true_iff in Hdd as [_ Hc2].
  change (String.eqb (String c2 p2) EmptyString) with false. cbv iota.
  rewrite lastIsSep_cons.
  assert (Hc2' : isSep c2 = false).
  { unfold isDot, isSep in *. apply Ascii.eqb_eq in Hc2. subst c2. reflexivity. }
  rewrite Hc2'.
  assert (IH2 : forall out' dd',
             (length out' + String.length p2 <= n)%nat ->
             (length (cleanLoop rooted false p2 out' dd')
                + (if lastIsSep p2 then 1 else 0) <= n)%nat).
  { intros. eapply IH; [| reflexivity |].
    - simpl in Hk. lia.
    - right. split; assumption. }
  assert (Hfin : forall out' dd',
             (length out' + String.length p2 <= n)%nat ->
             (length (cleanLoop rooted false p2 out' dd')
                + (if if String.eqb p2 EmptyString then false else lastIsSep p2
                   then 1 else 0) <= n)%nat).
  { intros out' dd' Hle. specialize (IH2 out' dd' Hle).
    destruct (String.eqb p2 EmptyString); lia. }
  simpl String.length in Hpre1.
  destruct (dd <? length out)%nat eqn:Hdd.
  { apply Hfin.
    assert (out <> []) by (destruct out; [simpl in Hdd; discriminate | congruence]).
    pose proof (backtrack_length out dd ltac:(assumption)). lia. }
  destruct rooted; simpl negb; cbv iota.
  { apply Hfin. lia. }
  apply Hfin. unfold sepDue in Hpre1.
  destruct out as [|o out']; simpl in *; lia.
Qed.

Lemma length_string_of_list_ascii l :
  String.length (string_of_list_ascii l) = length l.
Proof. induction l; simpl; congruence. Qed.

Lemma Clean_length c p1 :
  (String.length (Clean (String c p1))
     + (if lastIsSep (String c p1) && negb (String.eqb p1 EmptyString) then 1 else 0)
   <= S (String.length p1))%nat.
Proof.
  unfold Clean.
  set (out := if isSep c then _ else _).
  assert (Hout : (length out
            + (if lastIsSep (String c p1) && negb (String.eqb p1 EmptyString)
               then 1 else 0) <= S (String.length p1))%nat).
  { subst out. destruct (isSep c) eqn:Hc.
    - pose proof (cleanLoop_length true _ p1 false ["/"%char] 1%nat
                    (S (String.length p1)) eq_refl) as H.
      rewrite lastIsSep_cons.
      destruct (String.eqb p1 EmptyString); simpl negb.
      + rewrite andb_false_r. specialize (H ltac:(left; unfold sepDue; simpl; lia)). lia.
      + rewrite andb_true_r. apply H. left. unfold sepDue. simpl. lia.
    - pose proof (cleanLoop_length false _ (String c p1) false [] 0%nat
                    (S (String.length p1)) eq_refl) as H.
      specialize (H ltac:(left; unfold sepDue; simpl; lia)).
      destruct (lastIsSep (String c p1)), (negb (String.eqb p1 EmptyString));
        cbn [andb] in *; lia. }
  destruct out as [|o out'] eqn:Ho.
  - simpl String.length.
    destruct (lastIsSep (String c p1) && negb (String.eqb p1 EmptyString)) eqn:Hl; [|lia].
    apply andb_true_iff in Hl as [_ Hl]. destruct p1; [discriminate|]. simpl. lia.
  - rewrite length_string_of_list_ascii, length_rev. exact Hout.
Qed.

Lemma Split_app p : fst (Split p) +:+ snd (Split p) = p.
Proof.
  induction p as [|c p IH]; [reflexivity|]. simpl.
  destruct (Split p) as [d f]. simpl in IH.
  destruct (isSep c || negb (String.eqb d EmptyString)) eqn:H; simpl.
  - subst p. reflexivity.
  - apply orb_false_iff in H as [_ H]. apply negb_false_iff, String.eqb_eq in H.
    subst d p. reflexivity.
Qed.

Lemma Split_dir_last p :
  fst (Split p) = EmptyString \/ lastIsSep (fst (Split p)) = true.
Proof.
  induction p as [|c p IH]; [left; reflexivity|]. simpl.
  destruct (Split p) as [d f]. simpl in IH.
  destruct (isSep c || negb (String.eqb d EmptyString)) eqn:H; simpl; [|left; reflexivity].
  right. destruct d as [|c' d'].
  - simpl in H. rewrite orb_false_r in H. exact H.
  - destruct IH as [IH|IH]; [discriminate|]. exact IH.
Qed.

Lemma length_append (a b : string) :
  String.length (a +:+ b) = (String.length a + String.length b)%nat.
Proof.
  induction a as [|c a IH]; [reflexivity|].
  change (S (String.length (a +:+ b)) = S (String.length a + String.length b)).
  congruence.
Qed.

(** The measure that decreases along the ascent: ["."] is smallest, any
    other path counts its bytes. *)
Definition dirMeasure (p : string) : nat :=
  if String.eqb p "." then 0%nat else S (String.length p).

Lemma Dir_measure p : Dir p <> p -> (dirMeasure (Dir p) < dirMeasure p)%nat.
Proof.
  unfold Dir. intros Hne.
  pose proof (Split_app p) as Happ. pose proof (Split_dir_last p) as Hlast.
  destruct (Split p) as [d f]. simpl in *.
  assert (Hlen : String.length p = (String.length d + String.length f)%nat).
  { rewrite <- Happ. apply length_append. }
  destruct d as [|c d1].
  - simpl in *. unfold dirMeasure. simpl.
    destruct (String.eqb p ".") eqn:Hp; [|lia].
    apply String.eqb_eq in Hp. congruence.
  - destruct Hlast as [|Hlast]; [discriminate|].
    assert (Hp : String.eqb p "." = false).
    { apply String.eqb_neq. intros ->. simpl in Happ.
      injection Happ as -> Happ. destruct d1; [|discriminate].
      simpl in Hlast. discriminate. }
    pose proof (Clean_length c d1) as Hc. rewrite Hlast in Hc. simpl andb in Hc.
    unfold dirMeasure at 2. rewrite Hp.
    assert (Hm : forall q, (dirMeasure q <= S (String.length q))%nat).
    { intros q. unfold dirMeasure. destruct (String.eqb q "."); lia. }
    specialize (Hm (Clean (String c d1))).
    destruct d1 as [|c1 d1'].
    + simpl in Hlast. simpl in Hne |- *. rewrite Hlast in Hne |- *. simpl in Hne |- *.
      unfold isSep in Hlast. apply Ascii.eqb_eq in Hlast. subst c.
      simpl in Happ. destruct f as [|cf f'].
      * exfalso. apply Hne. exact Happ.
      * simpl in Hlen. unfold dirMeasure. simpl. lia.
    + simpl negb in Hc. cbv iota in Hc. simpl String.length in *. lia.
Qed.

End filepath.

(** ** [main.go] *)

Record block : Type := mkBlock {
  startLine : Z;
  startChar : Z;
  endLine : Z;
  endChar : Z;
  statements : Z;
  covered : Z
}.

Definition vscDirs : list string := [".git"; ".hg"; ".bzr"; ".svn"]%string.

(** The value built by [fmt.Errorf("can't find %q: %v", file, err)], kept
    as its two arguments. *)
Inductive error : Type := cantFind (file : string) (cause : string).

Record cacheResult : Type := mkCacheResult {
  file : string;
  err : option error
}.

(** What [build.Import(dir, ".", build.FindOnly)] answers: the directory
    of the package, or an error. *)
Inductive importResult : Type :=
| importOk (pkgDir : string)
| importErr (cause : string).

(** The mutable state of a run: the package-level variable [pkgCache], and
    the list of the directories [build.Import] was called with, oldest
    first. *)
Record state : Type := mkState {
  pkgCache : gmap string cacheResult;
  importCalls : list string
}.

Definition initialState : state := mkState ∅ [].

(** A call either returns or panics (index out of range). *)
Inductive outcome (A : Type) : Type :=
| Returns (a : A)
| Panics.
Arguments Returns {A} a.
Arguments Panics {A}.

#[global] Instance outcome_ret : MRet outcome := fun A a => Returns a.
#[global] Instance outcome_bind : MBind outcome := fun A B k o =>
  match o with
  | Returns a => k a
  | Panics => Panics
  end.

(** [l[i]] *)
Definition index (l : list string) (i : nat) : outcome string :=
  match l !! i with
  | Some x => Returns x
  | None => Panics
  end.

Definition newline : string := String (ascii_of_nat 10) EmptyString.

Section Program.

(** The two services of the environment: the package locator and the
    file system, [isDir p] telling that [os.Stat(p)] succeeds on a
    directory. *)
Variable build_Import : string -> importResult.
Variable isDir : string -> bool.

Definition findFile (file0 : string) (st : state) : string * option error * state :=
  let (dir, file1) := filepath.Split file0 in
  match pkgCache st !! dir with
  | Some cached => (file cached, err cached, st)
  | None =>
      let result :=
        match build_Import dir with
        | importErr e => mkCacheResult EmptyString (Some (cantFind file1 e))
        | importOk pkgDir => mkCacheResult (filepath.Join pkgDir file1) None
        end in
      (file result, err result,
       mkState (<[dir := result]> (pkgCache st)) (importCalls st ++ [dir]))
  end.

(** The [for] loop over [vscDirs] at the head of [findRepositoryRoot]. *)
Definition hasVcsDir (dir : string) : bool :=
  existsb (fun vcsdir => isDir (filepath.Join dir vcsdir)) vscDirs.

Equations? findRepositoryRoot (dir : string) : string * bool
    by wf (filepath.dirMeasure dir) lt :=
  findRepositoryRoot dir with hasVcsDir dir => {
    | true := (dir, true);
    | false with string_dec (filepath.Dir dir) dir => {
        | left _ := (EmptyString, false);
        | right _ := findRepositoryRoot (filepath.Dir dir) } }.
Proof. apply filepath.Dir_measure. assumption. Qed.

Definition getCoverallsSourceFileName (name : string) : string :=
  match findRepositoryRoot name with
  | (_, false) => name
  | (dir, true) => strings.TrimPrefix name (dir +:+ "/")
  end.

Definition parseCoverageLine (line : string) (st : state)
    : outcome (string * option block * bool) * state :=
  let parsed : outcome (option (string * block)) :=
    if strings.HasPrefix line "mode:" then Returns None else
    let path := strings.Split line ":" in
    if negb (length path =? 2)%nat then Returns None else
    path1 ← index path 1;
    let parts := strings.Split path1 " " in
    if negb (length parts =? 3)%nat then Returns None else
    parts0 ← index parts 0;
    let sections := strings.Split parts0 "," in
    if negb (length sections =? 2)%nat then Returns None else
    sections0 ← index sections 0;
    sections1 ← index sections 1;
    let start := strings.Split sections0 "." in
    let end_ := strings.Split sections1 "." in
    start0 ← index start 0;
    start1 ← index start 1;
    end0 ← index end_ 0;
    end1 ← index end_ 1;
    parts1 ← index parts 1;
    parts2 ← index parts 2;
    path0 ← index path 0;
    Returns (Some (path0,
                   {| startLine := fst (strconv.Atoi start0);
                      startChar := fst (strconv.Atoi start1);
                      endLine := fst (strconv.Atoi end0);
                      endChar := fst (strconv.Atoi end1);
                      statements := fst (strconv.Atoi parts1);
                      covered := fst (strconv.Atoi parts2) |})) in
  match parsed with
  | Panics => (Panics, st)
  | Returns None => (Returns (EmptyString, None, false), st)
  | Returns (Some (path0, b)) =>
      let '(f, e, st') := findFile path0 st in
      match e with
      | Some _ => (Returns (EmptyString, None, false), st')
      | None => (Returns (getCoverallsSourceFileName f, Some b, true), st')
      end
  end.

End Program.

(** *** The emitter

    The [bufio.Writer] is the list of the strings passed to
    [WriteString], oldest first.  The loop over the lines of a block counts
    with a wrapping [int], so it need not stop: it runs on [fuel], and
    [None] tells that the fuel did not suffice. *)

Definition daLine (i hits : Z) : string :=
  "DA:" +:+ strconv.Itoa i +:+ "," +:+ strconv.Itoa hits +:+ newline.

Fixpoint lineLoop (fuel : nat) (b : block) (i total coveredLines : Z)
    (w : list string) : option (Z * Z * list string) :=
  match fuel with
  | O => None
  | S fuel' =>
      if i <=? endLine b then
        lineLoop fuel' b (wrap (i + 1)) (wrap (total + 1))
          (if 0 <? covered b then wrap (coveredLines + 1) else coveredLines)
          (w ++ [daLine i (covered b)])
      else Some (total, coveredLines, w)
  end.

Fixpoint blockLoop (fuel : nat) (blocks : list block) (total coveredLines : Z)
    (w : list string) : option (Z * Z * list string) :=
  match blocks with
  | [] => Some (total, coveredLines, w)
  | b :: blocks' =>
      match lineLoop fuel b (startLine b) total coveredLines w with
      | None => None
      | Some (total', coveredLines', w') =>
          blockLoop fuel blocks' total' coveredLines' w'
      end
  end.

Definition writeLcovRecord (fuel : nat) (filePath : string)
    (blocks : list block) (w : list string) : option (list string) :=
  let w := w ++ ["TN:" +:+ newline] in
  let w := w ++ ["SF:" +:+ filePath +:+ newline] in
  match blockLoop fuel blocks 0 0 w with
  | None => None
  | Some (total, coveredLines, w) =>
      let w := w ++ ["LF:" +:+ strconv.Itoa total +:+ newline] in
      let w := w ++ ["LH:" +:+ strconv.Itoa coveredLines +:+ newline] in
      Some (w ++ ["end_of_record" +:+ newline])
  end.

(** The directory reached from [dir] after [k] ascents. *)
Fixpoint ancestor (k : nat) (dir : string) : string :=
  match k with
  | O => dir
  | S k' => ancestor k' (filepath.Dir dir)
  end.

(** The shortening operation as section 4.2 of the specification words
    it: [findRoot] is computed on the directory portion of the path.  To be
    compared with [getCoverallsSourceFileName]. *)
Definition shorten_spec (isDir : string -> bool) (path : string) : string :=
  match findRepositoryRoot isDir (filepath.Dir path) with
  | (_, false) => path
  | (root, true) => strings.TrimPrefix path (root +:+ "/")
  end.

(** The state after resolving the references [refs] one after the other. *)
Definition resolveAll (build_Import : string -> importResult)
    (refs : list string) (st : state) : state :=
  fold_left (fun st0 ref => snd (findFile build_Import ref st0)) refs st.

(** The line numbers [i, i+1, ...], [n] of them. *)
Fixpoint linesFrom (i : Z) (n : nat) : list Z :=
  match n with
  | O => []
  | S n' => i :: linesFrom (i + 1) n'
  end.

(** The number of lines from [startLine] to [endLine] inclusive; none when
    the range is inverted. *)
Definition lineCount (b : block) : Z := Z.max 0 (endLine b - startLine b + 1).

Definition linesOf (b : block) : list Z :=
  linesFrom (startLine b) (Z.to_nat (lineCount b)).

Definition daLines (b : block) : list string :=
  map (fun i => daLine i (covered b)) (linesOf b).

Definition totalLines (blocks : list block) : Z :=
  fold_right (fun b acc => lineCount b + acc) 0 blocks.

Definition hitLines (blocks : list block) : Z :=
  fold_right (fun b acc => (if 0 <? covered b then lineCount b else 0) + acc)
    0 blocks.

(** The [DA] entries of a record as pairs of a line number and a hit
    count, block after block. *)
Definition entries (blocks : list block) : list (Z * Z) :=
  flat_map (fun b => map (fun i => (i, covered b)) (linesOf b)) blocks.

(** A block whose line loop stays clear of the largest [int]. *)
Definition blockOk (b : block) : Prop :=
  inInt (startLine b) /\ endLine b < maxInt.

(** The text of a line of a cover profile with the given fields. *)
Definition coverLine (ref a b c d e f : string) : string :=
  ref +:+ ":" +:+ a +:+ "." +:+ b +:+ "," +:+ c +:+ "." +:+ d
      +:+ " " +:+ e +:+ " " +:+ f.

(** *** Decimal numerals

    The text of a number as Go prints it: [0], or an optional minus sign
    and digits that do not start with [0]. *)

Fixpoint allDigits (s : string) : bool :=
  match s with
  | EmptyString => true
  | String c s' => strconv.isDigit c && allDigits s'
  end.

Definition startsNumber (s : string) : bool :=
  match s with
  | EmptyString => false
  | String c s' => strconv.isDigit c && negb (Ascii.eqb c "0") && allDigits s'
  end.

Definition canonical (t : string) : bool :=
  String.eqb t "0"
  || match t with
     | String c s' => if Ascii.eqb c "-" then startsNumber s' else startsNumber t
     | EmptyString => false
     end.

(** A numeric field that is well formed: a canonical numeral that fits an
    [int]. *)
Definition numeral (t : string) : Prop :=
  canonical t = true /\ snd (strconv.Atoi t) = None.

(** *** The text of a numeric field

    A field read as an optional sign followed by a body. *)
Definition unsignedPart (t : string) : string :=
  match t with
  | String c s' => if Ascii.eqb c "+" || Ascii.eqb c "-" then s' else t
  | EmptyString => EmptyString
  end.

Definition isNegative (t : string) : bool :=
  match t with
  | String c _ => Ascii.eqb c "-"
  | EmptyString => false
  end.

(** The decimal digits a text starts with. *)
Fixpoint digitPrefix (s : string) : string :=
  match s with
  | String c s' => if strconv.isDigit c then String c (digitPrefix s') else EmptyString
  | EmptyString => EmptyString
  end.

(** The number a string of decimal digits writes, without any bound. *)
Fixpoint decimalFrom (s : string) (n : Z) : Z :=
  match s with
  | String c s' => decimalFrom s' (n * 10 + strconv.digitVal c)
  | EmptyString => n
  end.

Definition decimal (s : string) : Z := decimalFrom s 0.

(** The nearest [int]. *)
Definition clamp (z : Z) : Z := Z.max minInt (Z.min maxInt z).

(** *** A sample environment

    The package [example.com/pkg] lives in [/home/u/repo/pkg], inside the
    git repository [/home/u/repo]; no other package is known. *)

Definition exImport (dir : string) : importResult :=
  if String.eqb dir "example.com/pkg/" then importOk "/home/u/repo/pkg"
  else importErr "cannot find package".

Definition exIsDir (p : string) : bool := String.eqb p "/home/u/repo/.git".

(** A repository [/a/r] nested in the repository [/a]. *)
Definition nestedRepos (p : string) : bool :=
  String.eqb p "/a/.git" || String.eqb p "/a/r/.git".

(** * Properties *)

(** ** Strings *)

Lemma append_cons c (a b : string) : String c a +:+ b = String c (a +:+ b).
Proof. reflexivity. Qed.

Lemma append_nil_l (b : string) : EmptyString +:+ b = b.
Proof. reflexivity. Qed.

Lemma Count_append a b c :
  strings.Count (a +:+ b) c = (strings.Count a c + strings.Count b c)%nat.
Proof.
  induction a as [|x a IH]; [reflexivity|].
  rewrite append_cons. simpl. rewrite IH. destruct (Ascii.eqb x c); reflexivity.
Qed.

Lemma Split_length s c : length (strings.Split s c) = S (strings.Count s c).
Proof.
  induction s as [|x s IH]; [reflexivity|]. simpl.
  destruct (Ascii.eqb x c); simpl; [congruence|].
  destruct (strings.Split s c); simpl in *; congruence.
Qed.

Lemma Split_free s c : strings.Count s c = 0%nat -> strings.Split s c = [s].
Proof.
  induction s as [|x s IH]; [reflexivity|]. simpl.
  destruct (Ascii.eqb x c); [discriminate|]. intros H. rewrite (IH H). reflexivity.
Qed.

Lemma Split_append s c t :
  strings.Count s c = 0%nat ->
  strings.Split (s +:+ String c t) c = s :: strings.Split t c.
Proof.
  induction s as [|x s IH].
  - intros _. rewrite append_nil_l. simpl. rewrite Ascii.eqb_refl. reflexivity.
  - rewrite append_cons. simpl. destruct (Ascii.eqb x c); [discriminate|].
    intros H. rewrite (IH H). reflexivity.
Qed.

Lemma ContainsAny_Count s chars c :
  strings.ContainsAny s chars = false ->
  strings.IndexByte chars c = true ->
  strings.Count s c = 0%nat.
Proof.
  intros Hs Hc. induction s as [|x s IH]; [reflexivity|]. simpl in *.
  apply orb_false_iff in Hs as [Hx Hs].
  destruct (Ascii.eqb x c) eqn:E.
  - apply Ascii.eqb_eq in E. subst x. congruence.
  - apply IH, Hs.
Qed.

Lemma HasPrefix_append p s : strings.HasPrefix (p +:+ s) p = true.
Proof.
  induction p as [|x p IH]; [destruct s; reflexivity|].
  rewrite append_cons. simpl. rewrite Ascii.eqb_refl. exact IH.
Qed.

Lemma drop_append p s : strings.drop (String.length p) (p +:+ s) = s.
Proof. induction p as [|x p IH]; [reflexivity|]. exact IH. Qed.

Lemma TrimPrefix_append p s : strings.TrimPrefix (p +:+ s) p = s.
Proof. unfold strings.TrimPrefix. rewrite HasPrefix_append. apply drop_append. Qed.

(** ** Lines of the expected shape *)

Lemma append_single c (t : string) : String c EmptyString +:+ t = String c t.
Proof. reflexivity. Qed.

Lemma append_assoc (a b c : string) : (a +:+ b) +:+ c = a +:+ (b +:+ c).
Proof.
  induction a as [|x a IH]; [reflexivity|].
  rewrite !append_cons. rewrite IH. reflexivity.
Qed.

Lemma append_sep_assoc (x : string) c (y z : string) :
  x +:+ String c (y +:+ z) = (x +:+ String c y) +:+ z.
Proof. rewrite append_assoc, append_cons. reflexivity. Qed.

Lemma Count_cons x s c :
  strings.Count (String x s) c
  = ((if Ascii.eqb x c then 1 else 0) + strings.Count s c)%nat.
Proof. simpl. destruct (Ascii.eqb x c); reflexivity. Qed.

(** The fields of a line are free of the bytes the parser splits on. *)
Record wellShaped (ref a b c d e f : string) : Prop := {
  ws_ref : strings.ContainsAny ref ":" = false;
  ws_a : strings.ContainsAny a ": ,." = false;
  ws_b : strings.ContainsAny b ": ,." = false;
  ws_c : strings.ContainsAny c ": ,." = false;
  ws_d : strings.ContainsAny d ": ,." = false;
  ws_e : strings.ContainsAny e ": " = false;
  ws_f : strings.ContainsAny f ": " = false
}.

Ltac count_zero :=
  repeat first
    [ rewrite Count_append | rewrite Count_cons ];
  repeat match goal with
    | |- context [strings.Count ?s ?c] =>
        rewrite (ContainsAny_Count s _ c) by (try eassumption; reflexivity)
    end;
  reflexivity.

Section ShapedLines.

Variable build_Import : string -> importResult.
Variable isDir : string -> bool.

Lemma parseCoverageLine_coverLine ref a b c d e f st :
  wellShaped ref a b c d e f ->
  strings.HasPrefix (coverLine ref a b c d e f) "mode:" = false ->
  parseCoverageLine build_Import isDir (coverLine ref a b c d e f) st
  = let '(fl, er, st') := findFile build_Import ref st in
    match er with
    | Some _ => (Returns (EmptyString, None, false), st')
    | None =>
        (Returns (getCoverallsSourceFileName isDir fl,
                  Some (mkBlock (fst (strconv.Atoi a)) (fst (strconv.Atoi b))
                          (fst (strconv.Atoi c)) (fst (strconv.Atoi d))
                          (fst (strconv.Atoi e)) (fst (strconv.Atoi f))),
                  true), st')
    end.
Proof.
  intros [Hr Ha Hb Hc Hd He Hf] Hmode.
  unfold parseCoverageLine. rewrite Hmode. unfold coverLine.
  rewrite !append_single.
  rewrite (Split_append ref ":") by count_zero.
  rewrite (Split_free _ ":") by count_zero.
  cbn [length Nat.eqb negb index lookup list_lookup mbind outcome_bind].
  rewrite (append_sep_assoc c "." d).
  rewrite (append_sep_assoc b "," _ (String " " _)).
  rewrite (append_sep_assoc a "." _ (String " " _)).
  rewrite (Split_append _ " ") by count_zero.
  rewrite (Split_append e " ") by count_zero.
  rewrite (Split_free f " ") by count_zero.
  cbn [length Nat.eqb negb index lookup list_lookup mbind outcome_bind].
  rewrite (append_sep_assoc a "." b).
  rewrite (Split_append _ ",") by count_zero.
  rewrite (Split_free _ ",") by count_zero.
  cbn [length Nat.eqb negb index lookup list_lookup mbind outcome_bind].
  rewrite (Split_append a ".") by count_zero.
  rewrite (Split_free b ".") by count_zero.
  rewrite (Split_append c ".") by count_zero.
  rewrite (Split_free d ".") by count_zero.
  reflexivity.
Qed.

End ShapedLines.

(** ** Decimal numerals *)

Lemma digit_cases d : 0 <= d < 10 ->
  d = 0 \/ d = 1 \/ d = 2 \/ d = 3 \/ d = 4 \/ d = 5 \/ d = 6 \/ d = 7
  \/ d = 8 \/ d = 9.
Proof. lia. Qed.

Ltac each_digit d H :=
  destruct (digit_cases d H) as [->|[->|[->|[->|[->|[->|[->|[->|[->| ->]]]]]]]]].

Lemma isDigit_digitChar d : 0 <= d < 10 -> strconv.isDigit (strconv.digitChar d) = true.
Proof. intros H. each_digit d H; reflexivity. Qed.

Lemma digitVal_digitChar d : 0 <= d < 10 -> strconv.digitVal (strconv.digitChar d) = d.
Proof. intros H. each_digit d H; reflexivity. Qed.

Lemma formatLoop_small u acc :
  u < 10 -> strconv.formatLoop u acc = String (strconv.digitChar u) acc.
Proof.
  intros H. rewrite strconv.formatLoop_equation_1.
  destruct (Z_lt_dec u 10); [reflexivity | lia].
Qed.

Lemma formatLoop_big u acc :
  10 <= u ->
  strconv.formatLoop u acc
  = strconv.formatLoop (u / 10) (String (strconv.digitChar (u mod 10)) acc).
Proof.
  intros H. rewrite strconv.formatLoop_equation_1.
  destruct (Z_lt_dec u 10); [lia | reflexivity].
Qed.

(** Induction on the digit loop: a number below ten, or one whose
    quotient by ten is already covered. *)
Lemma decimal_ind (P : Z -> Prop) :
  (forall u, 0 <= u < 10 -> P u) ->
  (forall u, 10 <= u -> P (u / 10) -> P u) ->
  forall u, 0 <= u -> P u.
Proof.
  intros Hsmall Hbig u Hu. generalize Hu. pattern u.
  apply Z_lt_induction; [|exact Hu]. clear u Hu. intros u IH Hu.
  destruct (Z_lt_dec u 10) as [Hlt|Hge]; [apply Hsmall; lia|].
  assert (u / 10 < u) by (apply Z.div_lt; lia).
  assert (0 <= u / 10) by (apply Z.div_pos; lia).
  apply Hbig; [lia|]. apply IH; lia.
Qed.

Lemma parse_formatLoop u :
  0 <= u ->
  u <= maxUint64 ->
  forall acc, strconv.parseUintLoop (strconv.formatLoop u acc) 0
              = strconv.parseUintLoop acc u.
Proof.
  intros Hu. pattern u. revert u Hu. apply decimal_ind.
  - intros u Hu Hmax acc. rewrite formatLoop_small by lia. simpl.
    rewrite isDigit_digitChar, digitVal_digitChar by lia. simpl.
    change (maxUint64 / 10 + 1 <=? 0) with false. cbv iota.
    change (0 * 10 + u) with u.
    replace (maxUint64 <? u) with false; [reflexivity|].
    symmetry. apply Z.ltb_ge. exact Hmax.
  - intros u Hu IH Hmax acc. rewrite formatLoop_big by lia.
    assert (Hq : u / 10 <= maxUint64 / 10) by (apply Z.div_le_mono; lia).
    assert (Hq' : u / 10 <= maxUint64).
    { change (maxUint64 / 10) with 1844674407370955161 in Hq.
      change maxUint64 with 18446744073709551615. lia. }
    rewrite IH by exact Hq'. simpl.
    assert (Hm : 0 <= u mod 10 < 10) by (apply Z.mod_pos_bound; lia).
    rewrite isDigit_digitChar, digitVal_digitChar by exact Hm. simpl.
    replace (maxUint64 / 10 + 1 <=? u / 10) with false
      by (symmetry; apply Z.leb_gt; lia).
    replace (u / 10 * 10 + u mod 10) with u
      by (rewrite (Z.div_mod u 10) at 1 by lia; lia).
    replace (maxUint64 <? u) with false; [reflexivity|].
    symmetry. apply Z.ltb_ge. exact Hmax.
Qed.

Lemma formatLoop_head u :
  0 <= u ->
  forall acc, exists c rest,
    strconv.formatLoop u acc = String c rest /\ strconv.isDigit c = true.
Proof.
  intros Hu. pattern u. revert u Hu. apply decimal_ind.
  - intros u Hu acc. rewrite formatLoop_small by lia.
    eexists _, _. split; [reflexivity|]. apply isDigit_digitChar. lia.
  - intros u Hu IH acc. rewrite formatLoop_big by lia. apply IH.
Qed.

Lemma isDigit_not_sign c :
  strconv.isDigit c = true -> Ascii.eqb c "+" = false /\ Ascii.eqb c "-" = false.
Proof.
  intros H. split; apply Ascii.eqb_neq; intros ->; discriminate H.
Qed.

(** Parsing the text [Itoa] prints gives the number back, without error. *)
Lemma Atoi_Itoa z : inInt z -> strconv.Atoi (strconv.Itoa z) = (z, None).
Proof.
  unfold inInt. change maxInt with 9223372036854775807.
  change minInt with (-9223372036854775808). intros Hz.
  unfold strconv.Atoi, strconv.Itoa. destruct (z <? 0) eqn:Hneg.
  - apply Z.ltb_lt in Hneg.
    destruct (formatLoop_head (- z) ltac:(lia) EmptyString) as (c & rest & Hf & Hc).
    unfold strconv.ParseInt. change (Ascii.eqb "-" "-") with true.
    change (Ascii.eqb "-" "+") with false. cbn [orb negb andb].
    rewrite Hf. unfold strconv.ParseUint. rewrite <- Hf.
    rewrite parse_formatLoop
      by (change maxUint64 with 18446744073709551615; lia).
    simpl strconv.parseUintLoop. cbv iota.
    change (2 ^ (intSize - 1)) with 9223372036854775808.
    replace (9223372036854775808 <? - z) with false
      by (symmetry; apply Z.ltb_ge; lia).
    f_equal. lia.
  - apply Z.ltb_ge in Hneg.
    destruct (formatLoop_head z Hneg EmptyString) as (c & rest & Hf & Hc).
    destruct (isDigit_not_sign c Hc) as [Hplus Hminus].
    unfold strconv.ParseInt. rewrite Hf, Hplus, Hminus. cbn [orb negb andb].
    unfold strconv.ParseUint. rewrite <- Hf.
    rewrite parse_formatLoop
      by (change maxUint64 with 18446744073709551615; lia).
    simpl strconv.parseUintLoop. cbv iota.
    change (2 ^ (intSize - 1)) with 9223372036854775808.
    replace (9223372036854775808 <=? z) with false
      by (symmetry; apply Z.leb_gt; lia).
    reflexivity.
Qed.

Lemma digitChar_free chars d :
  strings.ContainsAny "0123456789" chars = false ->
  0 <= d < 10 ->
  strings.IndexByte chars (strconv.digitChar d) = false.
Proof.
  intros H Hd. cbn [strings.ContainsAny] in H.
  repeat (apply orb_false_iff in H; destruct H as [? H]).
  each_digit d Hd; assumption.
Qed.

Lemma isDigit_digitVal c : strconv.isDigit c = true -> 0 <= strconv.digitVal c <= 9.
Proof.
  unfold strconv.isDigit, strconv.digitVal. intros H.
  apply andb_true_iff in H as [H1 H2].
  apply Z.leb_le in H1. apply Z.leb_le in H2. lia.
Qed.

(** What the digit loop returns beside each error. *)
Lemma parseUintLoop_result s :
  forall n v e,
    0 <= n <= maxUint64 ->
    strconv.parseUintLoop s n = (v, e) ->
    match e with
    | Some strconv.ErrSyntax => v = 0
    | Some strconv.ErrRange => v = maxUint64
    | None => 0 <= v <= maxUint64
    end.
Proof.
  induction s as [|c s IH]; intros n v e Hn; simpl.
  - intros [= <- <-]. exact Hn.
  - destruct (strconv.isDigit c) eqn:Hc; simpl; [|intros [= <- <-]; reflexivity].
    destruct (maxUint64 / 10 + 1 <=? n); [intros [= <- <-]; reflexivity|].
    destruct (maxUint64 <? n * 10 + strconv.digitVal c) eqn:Hov;
      [intros [= <- <-]; reflexivity|].
    apply IH. apply Z.ltb_ge in Hov. pose proof (isDigit_digitVal c Hc). lia.
Qed.

(** The value [Atoi] returns beside each error: zero with a syntax error,
    the nearest bound of [int] with a range error. *)
Lemma Atoi_result s :
  match snd (strconv.Atoi s) with
  | Some strconv.ErrSyntax => fst (strconv.Atoi s) = 0
  | Some strconv.ErrRange =>
      fst (strconv.Atoi s) = maxInt \/ fst (strconv.Atoi s) = minInt
  | None => inInt (fst (strconv.Atoi s))
  end.
Proof.
  unfold strconv.Atoi, strconv.ParseInt. destruct s as [|c s]; [reflexivity|].
  cbv zeta.
  generalize (if Ascii.eqb c "+" || Ascii.eqb c "-" then s else String c s).
  intros digits.
  destruct (strconv.ParseUint digits) as [un e] eqn:Hun.
  assert (Hres : match e with
                 | Some strconv.ErrSyntax => un = 0
                 | Some strconv.ErrRange => un = maxUint64
                 | None => 0 <= un <= maxUint64
                 end).
  { unfold strconv.ParseUint in Hun. destruct digits.
    - injection Hun as <- <-. reflexivity.
    - eapply parseUintLoop_result; [|exact Hun].
      change maxUint64 with 18446744073709551615. lia. }
  change (2 ^ (intSize - 1)) with 9223372036854775808.
  unfold inInt. change maxInt with 9223372036854775807.
  change minInt with (-9223372036854775808).
  change maxUint64 with 18446744073709551615 in Hres.
  destruct e as [[|]|]; [reflexivity| |].
  - subst un. destruct (Ascii.eqb c "-"); simpl; [right|left]; reflexivity.
  - destruct (Ascii.eqb c "-"); cbn [negb andb].
    + destruct (9223372036854775808 <? un) eqn:E; simpl; [right; reflexivity|].
      apply Z.ltb_ge in E. lia.
    + destruct (9223372036854775808 <=? un) eqn:E; simpl; [left; reflexivity|].
      apply Z.leb_gt in E. lia.
Qed.

(** *** [Atoi] by the text of its argument *)

Lemma allDigits_digitPrefix s : allDigits (digitPrefix s) = true.
Proof.
  induction s as [|c s IH]; [reflexivity|]. cbn [digitPrefix].
  destruct (strconv.isDigit c) eqn:E; [|reflexivity].
  cbn [allDigits]. rewrite E, IH. reflexivity.
Qed.

Lemma digitPrefix_allDigits s : allDigits s = true -> digitPrefix s = s.
Proof.
  induction s as [|c s IH]; [reflexivity|]. cbn [allDigits digitPrefix].
  intros H. apply andb_true_iff in H as [Hc Hs]. rewrite Hc, (IH Hs). reflexivity.
Qed.

Lemma decimalFrom_ge s : forall n,
  allDigits s = true -> 0 <= n -> n <= decimalFrom s n.
Proof.
  induction s as [|c s IH]; intros n H Hn; [cbn; lia|].
  cbn [allDigits] in H. apply andb_true_iff in H as [Hc Hs].
  pose proof (isDigit_digitVal c Hc) as Hd. cbn [decimalFrom].
  assert (H1 : n * 10 + strconv.digitVal c <= decimalFrom s (n * 10 + strconv.digitVal c))
    by (apply IH; [exact Hs | lia]).
  lia.
Qed.

(** The digit loop by the text it reads: a range error as soon as the
    digits read so far leave the unsigned 64-bit range, else a syntax error
    at a byte that is not a digit, else the number written. *)
Lemma parseUintLoop_text s : forall n,
  0 <= n <= maxUint64 ->
  strconv.parseUintLoop s n
  = if maxUint64 <? decimalFrom (digitPrefix s) n
    then (maxUint64, Some strconv.ErrRange)
    else if allDigits s then (decimalFrom s n, None)
         else (0, Some strconv.ErrSyntax).
Proof.
  induction s as [|c s IH]; intros n Hn.
  - cbn [strconv.parseUintLoop digitPrefix decimalFrom allDigits].
    replace (maxUint64 <? n) with false by (symmetry; apply Z.ltb_ge; lia).
    reflexivity.
  - cbn [strconv.parseUintLoop digitPrefix allDigits].
    destruct (strconv.isDigit c) eqn:Hc; cbn [negb andb].
    + pose proof (isDigit_digitVal c Hc) as Hd. cbn [decimalFrom].
      pose proof (decimalFrom_ge (digitPrefix s) (n * 10 + strconv.digitVal c)
                    (allDigits_digitPrefix s)) as Hge.
      change (maxUint64 / 10 + 1) with 1844674407370955162.
      change maxUint64 with 18446744073709551615 in *.
      destruct (1844674407370955162 <=? n) eqn:Hcut.
      * apply Z.leb_le in Hcut.
        replace (18446744073709551615
                 <? decimalFrom (digitPrefix s) (n * 10 + strconv.digitVal c))
          with true by (symmetry; apply Z.ltb_lt; lia).
        reflexivity.
      * apply Z.leb_gt in Hcut.
        destruct (18446744073709551615 <? n * 10 + strconv.digitVal c) eqn:Hov.
        -- apply Z.ltb_lt in Hov.
           replace (18446744073709551615
                    <? decimalFrom (digitPrefix s) (n * 10 + strconv.digitVal c))
             with true by (symmetry; apply Z.ltb_lt; lia).
           reflexivity.
        -- apply Z.ltb_ge in Hov. apply IH.
           change maxUint64 with 18446744073709551615. lia.
    + cbn [decimalFrom].
      replace (maxUint64 <? n) with false by (symmetry; apply Z.ltb_ge; lia).
      reflexivity.
Qed.

(** The value of [Atoi] by the text of its argument: for a body of one or
    more digits behind the optional sign, the number written, brought to
    the nearest [int]; for any other text zero, unless the digits the body
    starts with already leave the unsigned 64-bit range, where it is the
    bound of [int] on the side of the sign. *)
Lemma Atoi_text t :
  fst (strconv.Atoi t)
  = if (allDigits (unsignedPart t) && negb (String.eqb (unsignedPart t) EmptyString))
       || (maxUint64 <? decimal (digitPrefix (unsignedPart t)))
    then clamp (if isNegative t then - decimal (digitPrefix (unsignedPart t))
                else decimal (digitPrefix (unsignedPart t)))
    else 0.
Proof.
  unfold strconv.Atoi, strconv.ParseInt. destruct t as [|c s]; [reflexivity|].
  cbv zeta. cbn [unsignedPart isNegative].
  generalize (if Ascii.eqb c "+" || Ascii.eqb c "-" then s else String c s).
  intros body. generalize (Ascii.eqb c "-"). intros neg.
  unfold strconv.ParseUint, decimal.
  destruct body as [|x body]; [reflexivity|].
  rewrite parseUintLoop_text by (change maxUint64 with 18446744073709551615; lia).
  change (String.eqb (String x body) EmptyString) with false.
  cbn [negb]. rewrite andb_true_r.
  pose proof (decimalFrom_ge (digitPrefix (String x body)) 0
                (allDigits_digitPrefix _) ltac:(lia)) as Hge.
  unfold clamp. change (2 ^ (intSize - 1)) with 9223372036854775808.
  change maxInt with 9223372036854775807.
  change minInt with (-9223372036854775808).
  change maxUint64 with 18446744073709551615.
  destruct (18446744073709551615 <? decimalFrom (digitPrefix (String x body)) 0)
    eqn:Hov.
  - apply Z.ltb_lt in Hov. rewrite orb_true_r.
    destruct neg; cbn [negb andb];
      [change (9223372036854775808 <? 18446744073709551615) with true
      |change (9223372036854775808 <=? 18446744073709551615) with true];
      cbn [fst]; lia.
  - apply Z.ltb_ge in Hov. rewrite orb_false_r.
    destruct (allDigits (String x body)) eqn:Hall; [|reflexivity].
    rewrite (digitPrefix_allDigits _ Hall) in *.
    set (u := decimalFrom (String x body) 0) in *.
    destruct neg; cbn [negb andb].
    + destruct (9223372036854775808 <? u) eqn:E; cbn [fst];
        [apply Z.ltb_lt in E | apply Z.ltb_ge in E]; lia.
    + destruct (9223372036854775808 <=? u) eqn:E; cbn [fst];
        [apply Z.leb_le in E | apply Z.leb_gt in E]; lia.
Qed.

Lemma digitChar_digitVal c :
  strconv.isDigit c = true -> strconv.digitChar (strconv.digitVal c) = c.
Proof.
  destruct c as [[] [] [] [] [] [] [] []]; intros H; try discriminate H; reflexivity.
Qed.

Lemma allDigits_free chars s :
  strings.ContainsAny "0123456789" chars = false ->
  allDigits s = true ->
  strings.ContainsAny s chars = false.
Proof.
  intros Hchars. induction s as [|c s IH]; [reflexivity|]. simpl.
  intros H. apply andb_true_iff in H as [Hc Hs]. rewrite (IH Hs), orb_false_r.
  rewrite <- (digitChar_digitVal c Hc). apply digitChar_free; [exact Hchars|].
  pose proof (isDigit_digitVal c Hc). lia.
Qed.

Lemma canonical_free chars t :
  strings.ContainsAny "-0123456789" chars = false ->
  canonical t = true ->
  strings.ContainsAny t chars = false.
Proof.
  intros H Ht. cbn [strings.ContainsAny] in H.
  apply orb_false_iff in H as [Hminus Hdigits].
  assert (Hnum : forall s, startsNumber s = true -> strings.ContainsAny s chars = false).
  { intros [|c s]; [discriminate|]. simpl. intros Hs.
    apply andb_true_iff in Hs as [Hs Hrest]. apply andb_true_iff in Hs as [Hc _].
    apply (allDigits_free chars (String c s) Hdigits). simpl.
    rewrite Hc, Hrest. reflexivity. }
  unfold canonical in Ht. apply orb_true_iff in Ht as [Ht|Ht].
  - apply String.eqb_eq in Ht. subst t.
    apply (allDigits_free chars "0" Hdigits). reflexivity.
  - destruct t as [|c s]; [discriminate|].
    destruct (Ascii.eqb c "-") eqn:E; [|apply Hnum, Ht].
    apply Ascii.eqb_eq in E. subst c. cbn [strings.ContainsAny].
    rewrite Hminus. apply Hnum, Ht.
Qed.

(** Printing the value the digit loop has read gives the digits back. *)
Lemma format_parseUintLoop s :
  forall n v,
    allDigits s = true ->
    1 <= n ->
    strconv.parseUintLoop s n = (v, None) ->
    n <= v
    /\ forall acc, strconv.formatLoop v acc = strconv.formatLoop n (s +:+ acc).
Proof.
  induction s as [|c s IH]; intros n v Hs Hn; simpl.
  - intros [= <-]. split; [lia | reflexivity].
  - simpl in Hs. apply andb_true_iff in Hs as [Hc Hs]. rewrite Hc. simpl.
    destruct (maxUint64 / 10 + 1 <=? n); [discriminate|].
    destruct (maxUint64 <? n * 10 + strconv.digitVal c); [discriminate|].
    intros Hp. pose proof (isDigit_digitVal c Hc) as Hd.
    assert (Hn1 : 1 <= n * 10 + strconv.digitVal c) by lia.
    destruct (IH _ _ Hs Hn1 Hp) as [Hle Hf]. split; [lia|].
    intros acc. rewrite Hf, append_cons.
    rewrite (formatLoop_big (n * 10 + strconv.digitVal c)) by lia.
    replace ((n * 10 + strconv.digitVal c) / 10) with n
      by (apply (Z.div_unique _ 10 n (strconv.digitVal c)); lia).
    replace ((n * 10 + strconv.digitVal c) mod 10) with (strconv.digitVal c)
      by (apply (Z.mod_unique _ 10 n (strconv.digitVal c)); lia).
    rewrite digitChar_digitVal by exact Hc. reflexivity.
Qed.

Lemma format_ParseUint s v :
  startsNumber s = true ->
  strconv.ParseUint s = (v, None) ->
  1 <= v /\ strconv.formatLoop v EmptyString = s.
Proof.
  destruct s as [|c s]; [discriminate|]. unfold startsNumber, strconv.ParseUint.
  intros H. apply andb_true_iff in H as [H Hs]. apply andb_true_iff in H as [Hc Hz].
  cbn [strconv.parseUintLoop]. rewrite Hc. cbn [negb].
  change (maxUint64 / 10 + 1 <=? 0) with false. cbv iota zeta.
  change (0 * 10 + strconv.digitVal c) with (strconv.digitVal c).
  destruct (maxUint64 <? strconv.digitVal c); [discriminate|].
  intros Hp. pose proof (isDigit_digitVal c Hc) as Hd.
  assert (Hpos : 1 <= strconv.digitVal c).
  { destruct (Z.eq_dec (strconv.digitVal c) 0) as [E|E]; [|lia].
    exfalso. pose proof (digitChar_digitVal c Hc) as Hcc. rewrite E in Hcc.
    subst c. discriminate Hz. }
  destruct (format_parseUintLoop s _ _ Hs Hpos Hp) as [Hle Hf]. split; [lia|].
  rewrite Hf, formatLoop_small by lia.
  rewrite digitChar_digitVal by exact Hc.
  clear. induction s as [|x s IH]; [reflexivity|].
  rewrite append_cons. congruence.
Qed.

Lemma ParseUint_range s un :
  strconv.ParseUint s = (un, Some strconv.ErrRange) -> un = maxUint64.
Proof.
  unfold strconv.ParseUint. destruct s as [|c s]; [discriminate|]. intros H.
  apply (parseUintLoop_result _ 0 un (Some strconv.ErrRange)) in H; [exact H|].
  change maxUint64 with 18446744073709551615. lia.
Qed.

(** Printing the number read from a well-formed field gives the field
    back. *)
Lemma Itoa_Atoi t : numeral t -> strconv.Itoa (fst (strconv.Atoi t)) = t.
Proof.
  intros [Hc Herr]. unfold canonical in Hc. apply orb_true_iff in Hc as [Hc|Hc].
  { apply String.eqb_eq in Hc. subst t. vm_compute. reflexivity. }
  destruct t as [|c s]; [discriminate|].
  unfold strconv.Atoi, strconv.ParseInt in *. cbv zeta in *.
  destruct (Ascii.eqb c "-") eqn:Hminus.
  - apply Ascii.eqb_eq in Hminus. subst c.
    change (Ascii.eqb "-" "+") with false in *. cbn [orb negb andb] in *.
    destruct (strconv.ParseUint s) as [un [[|]|]] eqn:Hun;
      try discriminate Herr.
    + apply ParseUint_range in Hun. subst un. discriminate Herr.
    + destruct (format_ParseUint s un Hc Hun) as [Hpos Hf].
      destruct (2 ^ (intSize - 1) <? un); [discriminate Herr|]. cbn [fst].
      unfold strconv.Itoa.
      replace (- un <? 0) with true by (symmetry; apply Z.ltb_lt; lia).
      rewrite Z.opp_involutive, Hf. reflexivity.
  - assert (Hplus : Ascii.eqb c "+" = false).
    { unfold startsNumber in Hc. apply andb_true_iff in Hc as [Hc _].
      apply andb_true_iff in Hc as [Hc _]. apply (isDigit_not_sign c Hc). }
    rewrite Hplus in *. cbn [orb negb andb] in *.
    destruct (strconv.ParseUint (String c s)) as [un [[|]|]] eqn:Hun;
      try discriminate Herr.
    + apply ParseUint_range in Hun. subst un. discriminate Herr.
    + destruct (format_ParseUint _ un Hc Hun) as [Hpos Hf].
      destruct (2 ^ (intSize - 1) <=? un); [discriminate Herr|]. cbn [fst].
      unfold strconv.Itoa.
      replace (un <? 0) with false by (symmetry; apply Z.ltb_ge; lia).
      exact Hf.
Qed.

Lemma formatLoop_starts u :
  0 <= u -> 1 <= u ->
  forall acc, allDigits acc = true ->
              startsNumber (strconv.formatLoop u acc) = true.
Proof.
  intros Hu. pattern u. revert u Hu. apply decimal_ind.
  - intros u Hu H1 acc Hacc. rewrite formatLoop_small by lia.
    unfold startsNumber. rewrite Hacc, isDigit_digitChar by lia.
    assert (H : 0 <= u < 10) by lia. clear Hu.
    each_digit u H; try reflexivity. lia.
  - intros u Hu IH H1 acc Hacc. rewrite formatLoop_big by lia.
    assert (1 <= u / 10) by (apply Z.div_le_lower_bound; lia).
    apply IH; [assumption|]. cbn [allDigits].
    rewrite isDigit_digitChar, Hacc by (apply Z.mod_pos_bound; lia). reflexivity.
Qed.

(** The well-formed fields are the texts [Itoa] prints for the [int]s. *)
Lemma numeral_iff t : numeral t <-> exists z, inInt z /\ t = strconv.Itoa z.
Proof.
  split.
  - intros H. exists (fst (strconv.Atoi t)). split.
    + pose proof (Atoi_result t) as Hr. destruct H as [_ H]. rewrite H in Hr.
      exact Hr.
    + symmetry. apply Itoa_Atoi, H.
  - intros (z & Hz & ->). split; [|rewrite Atoi_Itoa by exact Hz; reflexivity].
    unfold strconv.Itoa, canonical. destruct (z <? 0) eqn:Hneg.
    + apply Z.ltb_lt in Hneg. change (Ascii.eqb "-" "-") with true. cbv iota.
      rewrite formatLoop_starts by (lia || reflexivity). apply orb_true_r.
    + apply Z.ltb_ge in Hneg. destruct (Z.eq_dec z 0) as [->|Hnz]; [reflexivity|].
      pose proof (formatLoop_starts z Hneg ltac:(lia) EmptyString eq_refl) as Hs.
      destruct (strconv.formatLoop z EmptyString) as [|c s] eqn:Hf;
        [discriminate Hs|].
      assert (Hc : strconv.isDigit c = true).
      { unfold startsNumber in Hs. apply andb_true_iff in Hs as [Hs _].
        apply andb_true_iff in Hs as [Hs _]. exact Hs. }
      rewrite (proj2 (isDigit_not_sign c Hc)), Hs. apply orb_true_r.
Qed.

(** ** Wrapping arithmetic *)

Lemma wrap_inInt z : inInt (wrap z).
Proof.
  unfold inInt, wrap. change maxInt with 9223372036854775807.
  change minInt with (-9223372036854775808).
  change (2 ^ intSize) with 18446744073709551616.
  pose proof (Z.mod_pos_bound (z - -9223372036854775808) 18446744073709551616).
  lia.
Qed.

Lemma wrap_id z : inInt z -> wrap z = z.
Proof.
  unfold inInt, wrap. change maxInt with 9223372036854775807.
  change minInt with (-9223372036854775808).
  change (2 ^ intSize) with 18446744073709551616. intros H.
  rewrite Z.mod_small by lia. lia.
Qed.

Lemma wrap_wrap_add a b : wrap (wrap a + b) = wrap (a + b).
Proof.
  unfold wrap. f_equal.
  replace ((a - minInt) mod 2 ^ intSize + minInt + b - minInt)
    with ((a - minInt) mod 2 ^ intSize + b) by lia.
  rewrite Zplus_mod_idemp_l. f_equal. lia.
Qed.

(** ** The line loop *)

(** With an [endLine] below the largest [int] the loop stops after one
    round per line, whatever fuel is left. *)
Lemma lineLoop_spec b n :
  forall i total coveredLines w fuel,
    endLine b < maxInt ->
    minInt <= i ->
    inInt total ->
    inInt coveredLines ->
    Z.of_nat n = endLine b - i + 1 ->
    (n < fuel)%nat ->
    lineLoop fuel b i total coveredLines w
    = Some (wrap (total + Z.of_nat n),
            (if 0 <? covered b then wrap (coveredLines + Z.of_nat n)
             else coveredLines),
            w ++ map (fun l => daLine l (covered b)) (linesFrom i n)).
Proof.
  induction n as [|n IH];
    intros i total coveredLines w fuel Hend Hi Ht Hc Hn Hfuel.
  - destruct fuel as [|fuel]; [lia|]. simpl.
    replace (i <=? endLine b) with false by (symmetry; apply Z.leb_gt; lia).
    rewrite !Z.add_0_r, app_nil_r, !wrap_id by assumption.
    destruct (0 <? covered b); reflexivity.
  - destruct fuel as [|fuel]; [lia|]. cbn [lineLoop].
    replace (i <=? endLine b) with true by (symmetry; apply Z.leb_le; lia).
    assert (Hw : wrap (i + 1) = i + 1).
    { apply wrap_id. unfold inInt. lia. }
    rewrite Hw. rewrite IH; try lia; try apply wrap_inInt.
    2: { destruct (0 <? covered b); [apply wrap_inInt | assumption]. }
    cbn [linesFrom map]. rewrite <- app_assoc. cbn [app].
    rewrite !wrap_wrap_add.
    replace (total + 1 + Z.of_nat n) with (total + Z.of_nat (S n)) by lia.
    destruct (0 <? covered b); [|reflexivity].
    rewrite wrap_wrap_add.
    replace (coveredLines + 1 + Z.of_nat n)
      with (coveredLines + Z.of_nat (S n)) by lia.
    reflexivity.
Qed.

(** With [endLine] the largest [int], the loop condition holds for every
    [int] and the loop never stops. *)
Lemma lineLoop_diverges b :
  endLine b = maxInt ->
  forall fuel i total coveredLines w,
    inInt i -> lineLoop fuel b i total coveredLines w = None.
Proof.
  intros Hend. induction fuel as [|fuel IH]; intros i total coveredLines w Hi;
    [reflexivity|].
  cbn [lineLoop].
  replace (i <=? endLine b) with true
    by (symmetry; apply Z.leb_le; unfold inInt in Hi; lia).
  apply IH. apply wrap_inInt.
Qed.

Lemma lineLoop_block b total coveredLines w fuel :
  blockOk b ->
  inInt total ->
  inInt coveredLines ->
  (Z.to_nat (lineCount b) < fuel)%nat ->
  lineLoop fuel b (startLine b) total coveredLines w
  = Some (wrap (total + lineCount b),
          wrap (coveredLines + (if 0 <? covered b then lineCount b else 0)),
          w ++ daLines b).
Proof.
  intros [[Hlo Hhi] Hend] Ht Hc Hfuel. unfold daLines, linesOf, lineCount in *.
  destruct (Z_le_gt_dec (startLine b) (endLine b + 1)) as [Hle|Hgt].
  - rewrite (lineLoop_spec b (Z.to_nat (Z.max 0 (endLine b - startLine b + 1))))
      by (assumption || lia).
    rewrite Z2Nat.id by lia. destruct (0 <? covered b); [reflexivity|].
    rewrite Z.add_0_r, (wrap_id coveredLines) by assumption. reflexivity.
  - replace (Z.max 0 (endLine b - startLine b + 1)) with 0 in * by lia.
    destruct fuel as [|fuel]; [simpl in Hfuel; lia|]. simpl.
    replace (startLine b <=? endLine b) with false
      by (symmetry; apply Z.leb_gt; lia).
    destruct (0 <? covered b);
      rewrite !Z.add_0_r, app_nil_r, !wrap_id by assumption; reflexivity.
Qed.

(** Fuel left over changes nothing. *)
Lemma lineLoop_more_fuel fuel : forall b i total coveredLines w r extra,
  lineLoop fuel b i total coveredLines w = Some r ->
  lineLoop (fuel + extra) b i total coveredLines w = Some r.
Proof.
  induction fuel as [|fuel IH]; intros b i total coveredLines w r extra;
    [discriminate|].
  cbn [lineLoop Nat.add]. destruct (i <=? endLine b); [apply IH | auto].
Qed.

(** ** The record of a file *)

Lemma blockLoop_more_fuel fuel extra blocks : forall total coveredLines w r,
  blockLoop fuel blocks total coveredLines w = Some r ->
  blockLoop (fuel + extra) blocks total coveredLines w = Some r.
Proof.
  induction blocks as [|b blocks IH]; intros total coveredLines w r; [auto|].
  cbn [blockLoop].
  destruct (lineLoop fuel b _ _ _ _) as [[[t c] w']|] eqn:E; [|discriminate].
  rewrite (lineLoop_more_fuel _ _ _ _ _ _ _ extra E). apply IH.
Qed.

Lemma writeLcovRecord_more_fuel fuel extra filePath blocks w out :
  writeLcovRecord fuel filePath blocks w = Some out ->
  writeLcovRecord (fuel + extra) filePath blocks w = Some out.
Proof.
  unfold writeLcovRecord.
  destruct (blockLoop fuel blocks _ _ _) as [[[t c] w']|] eqn:E; [|discriminate].
  rewrite (blockLoop_more_fuel _ extra _ _ _ _ _ E). auto.
Qed.


Lemma lineCount_nonneg b : 0 <= lineCount b.
Proof. unfold lineCount. lia. Qed.

Lemma totalLines_nonneg blocks : 0 <= totalLines blocks.
Proof.
  induction blocks as [|b blocks IH]; simpl; [lia|].
  pose proof (lineCount_nonneg b). lia.
Qed.

Lemma hitLines_bounds blocks : 0 <= hitLines blocks <= totalLines blocks.
Proof.
  induction blocks as [|b blocks IH]; simpl; [lia|].
  pose proof (lineCount_nonneg b). destruct (0 <? covered b); lia.
Qed.

Lemma blockLoop_spec blocks :
  forall total coveredLines w fuel,
    Forall blockOk blocks ->
    inInt total ->
    inInt coveredLines ->
    (Z.to_nat (totalLines blocks) < fuel)%nat ->
    blockLoop fuel blocks total coveredLines w
    = Some (wrap (total + totalLines blocks),
            wrap (coveredLines + hitLines blocks),
            w ++ flat_map daLines blocks).
Proof.
  induction blocks as [|b blocks IH]; intros total coveredLines w fuel Hok Ht Hc Hfuel.
  - simpl. rewrite !Z.add_0_r, app_nil_r, !wrap_id by assumption. reflexivity.
  - apply Forall_cons in Hok as [Hb Hok]. cbn [blockLoop].
    pose proof (lineCount_nonneg b). pose proof (totalLines_nonneg blocks).
    cbn [totalLines fold_right] in Hfuel. fold (totalLines blocks) in Hfuel.
    rewrite lineLoop_block by (assumption || lia).
    rewrite IH by (assumption || apply wrap_inInt || lia).
    rewrite !wrap_wrap_add. cbn [flat_map totalLines hitLines fold_right].
    rewrite <- app_assoc, !Z.add_assoc. reflexivity.
Qed.

(** With enough fuel the record of a file is: the two header lines, the
    [DA] lines of each block in turn, the two totals and the end marker. *)
Lemma writeLcovRecord_spec filePath blocks w fuel :
  Forall blockOk blocks ->
  (Z.to_nat (totalLines blocks) < fuel)%nat ->
  writeLcovRecord fuel filePath blocks w
  = Some (w ++ ["TN:" +:+ newline; "SF:" +:+ filePath +:+ newline]
            ++ flat_map daLines blocks
            ++ ["LF:" +:+ strconv.Itoa (wrap (totalLines blocks)) +:+ newline;
                "LH:" +:+ strconv.Itoa (wrap (hitLines blocks)) +:+ newline;
                "end_of_record" +:+ newline]).
Proof.
  intros Hok Hfuel. unfold writeLcovRecord.
  assert (H0 : inInt 0) by (unfold inInt; cbv; split; discriminate).
  rewrite blockLoop_spec by assumption.
  rewrite !Z.add_0_l. rewrite <- !app_assoc. reflexivity.
Qed.

(** A block that ends at the largest [int] keeps the emitter in its line
    loop for ever, provided the blocks before it let the emitter through. *)
Lemma blockLoop_diverges fuel before b after :
  Forall blockOk before ->
  inInt (startLine b) ->
  endLine b = maxInt ->
  forall total coveredLines w,
    blockLoop fuel (before ++ b :: after) total coveredLines w = None.
Proof.
  intros Hok Hs He. induction before as [|b0 before IH]; intros total coveredLines w.
  - cbn [app blockLoop]. rewrite lineLoop_diverges by assumption. reflexivity.
  - apply Forall_cons in Hok as [_ Hok]. cbn [app blockLoop].
    destruct (lineLoop fuel b0 _ _ _ _) as [[[t c] w']|]; [|reflexivity].
    apply IH, Hok.
Qed.

(** *** The lines of a block *)

Lemma linesFrom_length i n : length (linesFrom i n) = n.
Proof. revert i. induction n as [|n IH]; intros i; simpl; [|rewrite IH]; reflexivity. Qed.

Lemma linesFrom_lookup n : forall i k,
  (k < n)%nat -> linesFrom i n !! k = Some (i + Z.of_nat k).
Proof.
  induction n as [|n IH]; intros i k Hk; [lia|].
  destruct k as [|k]; simpl.
  - f_equal. lia.
  - rewrite IH by lia. f_equal. lia.
Qed.

Lemma linesFrom_In n : forall i l,
  In l (linesFrom i n) <-> i <= l < i + Z.of_nat n.
Proof.
  induction n as [|n IH]; intros i l; simpl; [lia|].
  rewrite IH. lia.
Qed.

Lemma linesOf_In b l : In l (linesOf b) <-> startLine b <= l <= endLine b.
Proof.
  unfold linesOf, lineCount. rewrite linesFrom_In. lia.
Qed.

Lemma daLines_length b : Z.of_nat (length (daLines b)) = lineCount b.
Proof.
  unfold daLines, linesOf. rewrite length_map, linesFrom_length.
  pose proof (lineCount_nonneg b). lia.
Qed.

Lemma flat_map_daLines_length blocks :
  Z.of_nat (length (flat_map daLines blocks)) = totalLines blocks.
Proof.
  induction blocks as [|b blocks IH]; [reflexivity|].
  cbn [flat_map totalLines fold_right]. fold (totalLines blocks).
  rewrite length_app, Nat2Z.inj_add, daLines_length, IH. reflexivity.
Qed.

(** ** The repository root *)

Section Root.

Variable isDir : string -> bool.

Lemma findRepositoryRoot_eq dir :
  findRepositoryRoot isDir dir
  = if hasVcsDir isDir dir then (dir, true)
    else if String.eqb (filepath.Dir dir) dir then (EmptyString, false)
    else findRepositoryRoot isDir (filepath.Dir dir).
Proof.
  rewrite findRepositoryRoot_equation_1.
  destruct (hasVcsDir isDir dir); [reflexivity|]. simpl.
  destruct (string_dec (filepath.Dir dir) dir) as [E|E]; simpl.
  - apply String.eqb_eq in E. rewrite E. reflexivity.
  - apply String.eqb_neq in E. rewrite E. reflexivity.
Qed.

Lemma hasVcsDir_iff dir :
  hasVcsDir isDir dir = true
  <-> exists vcsdir, In vcsdir vscDirs /\ isDir (filepath.Join dir vcsdir) = true.
Proof. unfold hasVcsDir. apply existsb_exists. Qed.

Lemma hasVcsDir_none dir :
  hasVcsDir isDir dir = false ->
  forall vcsdir, In vcsdir vscDirs -> isDir (filepath.Join dir vcsdir) = false.
Proof.
  intros H vcsdir Hin. destruct (isDir (filepath.Join dir vcsdir)) eqn:E; [|reflexivity].
  rewrite <- H. symmetry. apply hasVcsDir_iff. exists vcsdir. split; assumption.
Qed.

Lemma findRepositoryRoot_ascent_aux n :
  forall dir, filepath.dirMeasure dir = n ->
  exists k,
    (k <= n)%nat
    /\ (forall j, (j < k)%nat ->
           hasVcsDir isDir (ancestor j dir) = false
           /\ String.eqb (filepath.Dir (ancestor j dir)) (ancestor j dir) = false)
    /\ ((hasVcsDir isDir (ancestor k dir) = true
         /\ findRepositoryRoot isDir dir = (ancestor k dir, true))
        \/ (hasVcsDir isDir (ancestor k dir) = false
            /\ filepath.Dir (ancestor k dir) = ancestor k dir
            /\ findRepositoryRoot isDir dir = (EmptyString, false))).
Proof.
  induction n as [n IH] using lt_wf_ind. intros dir Hn.
  rewrite findRepositoryRoot_eq.
  destruct (hasVcsDir isDir dir) eqn:Hvcs.
  { exists 0%nat. split; [lia|]. split; [intros j Hj; lia|]. left. auto. }
  destruct (String.eqb (filepath.Dir dir) dir) eqn:Hdir.
  { exists 0%nat. split; [lia|]. split; [intros j Hj; lia|]. right.
    apply String.eqb_eq in Hdir. auto. }
  assert (Hlt : (filepath.dirMeasure (filepath.Dir dir) < n)%nat).
  { subst n. apply filepath.Dir_measure. apply String.eqb_neq. exact Hdir. }
  destruct (IH _ Hlt (filepath.Dir dir) eq_refl) as (k & Hk & Hbelow & Hend).
  exists (S k). split; [lia|]. split.
  - intros [|j] Hj; simpl; [auto|]. apply Hbelow. lia.
  - exact Hend.
Qed.

End Root.

(** ** The package cache *)

Section Cache.

Variable build_Import : string -> importResult.

Lemma findFile_cached ref st r :
  pkgCache st !! fst (filepath.Split ref) = Some r ->
  findFile build_Import ref st = (file r, err r, st).
Proof.
  intros H. unfold findFile. destruct (filepath.Split ref) as [dir f].
  simpl in H. rewrite H. reflexivity.
Qed.

Lemma findFile_stores ref st :
  pkgCache (snd (findFile build_Import ref st)) !! fst (filepath.Split ref)
  = Some (mkCacheResult (fst (fst (findFile build_Import ref st)))
                        (snd (fst (findFile build_Import ref st)))).
Proof.
  unfold findFile. destruct (filepath.Split ref) as [dir f]. simpl.
  destruct (pkgCache st !! dir) as [[cf ce]|] eqn:H; simpl; [exact H|].
  rewrite lookup_insert_eq. destruct (build_Import dir); reflexivity.
Qed.

Lemma findFile_keeps ref st dir r :
  pkgCache st !! dir = Some r ->
  pkgCache (snd (findFile build_Import ref st)) !! dir = Some r.
Proof.
  intros H. unfold findFile. destruct (filepath.Split ref) as [d f].
  destruct (pkgCache st !! d) eqn:Hd; simpl; [exact H|].
  rewrite lookup_insert_ne; [exact H|]. intros ->. congruence.
Qed.

Lemma resolveAll_keeps refs st dir r :
  pkgCache st !! dir = Some r ->
  pkgCache (resolveAll build_Import refs st) !! dir = Some r.
Proof.
  revert st. induction refs as [|ref refs IH]; intros st H; [exact H|].
  simpl. apply IH, findFile_keeps, H.
Qed.

End Cache.

(** * The record parser *)

Section Parser.

Variable build_Import : string -> importResult.
Variable isDir : string -> bool.

Lemma Split_one s c :
  strings.Count s c = 1%nat ->
  exists a b, strings.Split s c = [a; b] /\ s = a +:+ String c b
              /\ strings.Count a c = 0%nat /\ strings.Count b c = 0%nat.
Proof.
  induction s as [|x s IH]; [discriminate|]. simpl.
  destruct (Ascii.eqb x c) eqn:E.
  - intros [= H]. apply Ascii.eqb_eq in E. subst x.
    exists EmptyString, s. rewrite (Split_free s c H). auto.
  - intros H. destruct (IH H) as (a & b & Hs & -> & Ha & Hb).
    exists (String x a), b. rewrite Hs. simpl. rewrite E. auto.
Qed.

(** A line that the colon split does not cut in two is rejected. *)
Lemma parseCoverageLine_colon_mismatch line st :
  strings.Count line ":" <> 1%nat ->
  parseCoverageLine build_Import isDir line st
  = (Returns (EmptyString, None, false), st).
Proof.
  intros H. unfold parseCoverageLine.
  destruct (strings.HasPrefix line "mode:"); [reflexivity|].
  rewrite Split_length.
  replace (S (strings.Count line ":") =? 2)%nat with false; [reflexivity|].
  symmetry. apply Nat.eqb_neq. lia.
Qed.

(** Wherever the start or the end field of the range holds no period, the
    parser panics: the length of neither period split is checked. *)
Lemma parseCoverageLine_panics_on_missing_period ref s e n h st :
  strings.ContainsAny ref ":" = false ->
  strings.ContainsAny s ": ," = false ->
  strings.ContainsAny e ": ," = false ->
  strings.ContainsAny n ": " = false ->
  strings.ContainsAny h ": " = false ->
  strings.HasPrefix (ref +:+ ":" +:+ s +:+ "," +:+ e +:+ " " +:+ n +:+ " " +:+ h)
    "mode:" = false ->
  strings.Count s "." = 0%nat \/ strings.Count e "." = 0%nat ->
  parseCoverageLine build_Import isDir
    (ref +:+ ":" +:+ s +:+ "," +:+ e +:+ " " +:+ n +:+ " " +:+ h) st
  = (Panics, st).
Proof.
  intros Hr Hs He Hn Hh Hmode Hdot.
  unfold parseCoverageLine. rewrite Hmode. rewrite !append_single.
  rewrite (Split_append ref ":") by count_zero.
  rewrite (Split_free _ ":") by count_zero.
  cbn [length Nat.eqb negb index lookup list_lookup mbind outcome_bind].
  rewrite (append_sep_assoc s "," e).
  rewrite (Split_append _ " ") by count_zero.
  rewrite (Split_append n " ") by count_zero.
  rewrite (Split_free h " ") by count_zero.
  cbn [length Nat.eqb negb index lookup list_lookup mbind outcome_bind].
  rewrite (Split_append s ",") by count_zero.
  rewrite (Split_free e ",") by count_zero.
  cbn [length Nat.eqb negb index lookup list_lookup mbind outcome_bind].
  destruct (strings.Split s ".") as [|s0 [|s1 ss]] eqn:Es.
  - reflexivity.
  - reflexivity.
  - destruct Hdot as [Hdot|Hdot].
    + rewrite (Split_free s "." Hdot) in Es. discriminate Es.
    + rewrite (Split_free e "." Hdot). reflexivity.
Qed.

(** C1 (code at the failing input).  The line [x:1,2 3 4] passes the
    colon, space and comma checks; its range fields [1] and [2] hold no
    period, the period split of [1] has a single segment, and reading
    [start[1]] panics with an index out of range instead of returning
    [ok = false].  The state is the one of the call: the resolver is not
    reached. *)
Theorem parseCoverageLine_panics_without_period st :
  parseCoverageLine build_Import isDir "x:1,2 3 4" st = (Panics, st).
Proof. reflexivity. Qed.

(** C4 (amended).  [parseCoverageLine] splits the line at every colon and
    requires exactly two segments: a line whose number of colons is not one
    is rejected with [ok = false] and the state untouched; a line with
    exactly one colon is cut into the file reference before the colon and
    the rest after it, and the parser goes on with these two: the rest is
    what the space, comma and period splits work on, and the reference is
    what [findFile] is asked for. *)
Theorem parseCoverageLine_splits_at_every_colon line st :
  (strings.Count line ":" <> 1%nat ->
   parseCoverageLine build_Import isDir line st
   = (Returns (EmptyString, None, false), st))
  /\ (strings.Count line ":" = 1%nat ->
      exists ref rest,
        strings.Split line ":" = [ref; rest]
        /\ line = ref +:+ ":" +:+ rest
        /\ strings.Count ref ":" = 0%nat
        /\ strings.Count rest ":" = 0%nat
        /\ parseCoverageLine build_Import isDir line st
           = if strings.HasPrefix line "mode:"
             then (Returns (EmptyString, None, false), st)
             else match strings.Split rest " " with
                  | [rng; n; h] =>
                      match strings.Split rng "," with
                      | [s; e] =>
                          match strings.Split s ".", strings.Split e "." with
                          | s0 :: s1 :: _, e0 :: e1 :: _ =>
                              let '(fl, er, st') := findFile build_Import ref st in
                              match er with
                              | Some _ => (Returns (EmptyString, None, false), st')
                              | None =>
                                  (Returns
                                     (getCoverallsSourceFileName isDir fl,
                                      Some (mkBlock (fst (strconv.Atoi s0))
                                              (fst (strconv.Atoi s1))
                                              (fst (strconv.Atoi e0))
                                              (fst (strconv.Atoi e1))
                                              (fst (strconv.Atoi n))
                                              (fst (strconv.Atoi h))),
                                      true), st')
                              end
                          | _, _ => (Panics, st)
                          end
                      | _ => (Returns (EmptyString, None, false), st)
                      end
                  | _ => (Returns (EmptyString, None, false), st)
                  end).
Proof.
  split.
  - apply parseCoverageLine_colon_mismatch.
  - intros H. destruct (Split_one line ":" H) as (ref & rest & Hs & Hl & Ha & Hb).
    exists ref, rest. split; [exact Hs|]. split; [exact Hl|].
    split; [exact Ha|]. split; [exact Hb|].
    unfold parseCoverageLine. rewrite Hs.
    destruct (strings.HasPrefix line "mode:"); [reflexivity|].
    cbn [length Nat.eqb negb index lookup list_lookup mbind outcome_bind].
    destruct (strings.Split rest " ") as [|rng [|n [|h [|y ys]]]]; try reflexivity.
    cbn [length Nat.eqb negb index lookup list_lookup mbind outcome_bind].
    destruct (strings.Split rng ",") as [|s [|e [|z zs]]]; try reflexivity.
    cbn [length Nat.eqb negb index lookup list_lookup mbind outcome_bind].
    destruct (strings.Split s ".") as [|s0 [|s1 ss]]; try reflexivity.
    destruct (strings.Split e ".") as [|e0 [|e1 es]]; reflexivity.
Qed.

(** C5 (amended).  On a line of the expected shape the parser never panics
    and never reports a numeric field: whether it accepts the line depends
    on the resolver alone, and each field of the block is the value
    [strconv.Atoi] returns for its text, the error being dropped.  By the
    text of a field, read as an optional sign followed by a body, that
    value is: when the body is one or more decimal digits, the number
    written if it fits an [int] and the nearest bound of [int] otherwise,
    not zero; when the body is empty or holds a byte that is not a decimal
    digit, zero, unless the digits the body starts with already write a
    number above [2 ^ 64 - 1], where it is again the bound of [int] on the
    side of the sign. *)
Theorem numeric_fields_are_lenient ref a b c d e f st :
  wellShaped ref a b c d e f ->
  strings.HasPrefix (coverLine ref a b c d e f) "mode:" = false ->
  parseCoverageLine build_Import isDir (coverLine ref a b c d e f) st
  = (let '(fl, er, st') := findFile build_Import ref st in
     match er with
     | Some _ => (Returns (EmptyString, None, false), st')
     | None =>
         (Returns (getCoverallsSourceFileName isDir fl,
                   Some (mkBlock (fst (strconv.Atoi a)) (fst (strconv.Atoi b))
                           (fst (strconv.Atoi c)) (fst (strconv.Atoi d))
                           (fst (strconv.Atoi e)) (fst (strconv.Atoi f))),
                   true), st')
     end)
  /\ (forall t,
        fst (strconv.Atoi t)
        = if (allDigits (unsignedPart t)
              && negb (String.eqb (unsignedPart t) EmptyString))
             || (maxUint64 <? decimal (digitPrefix (unsignedPart t)))
          then clamp (if isNegative t
                      then - decimal (digitPrefix (unsignedPart t))
                      else decimal (digitPrefix (unsignedPart t)))
          else 0).
Proof.
  intros Hshape Hmode. split.
  - apply parseCoverageLine_coverLine; assumption.
  - exact Atoi_text.
Qed.

(** C9.  A well-formed line carries six well-formed numeric fields
    (canonical decimal numerals that fit an [int], the texts Go prints
    for numbers) after a colon-free file reference, and is not the mode
    header.  Whatever the resolver and the cache, the line is accepted
    exactly when the reference resolves, and printing the six fields of the
    block returned then gives the six texts of the line back. *)
Theorem numeric_payload_roundtrip ref a b c d e f st :
  numeral a -> numeral b -> numeral c -> numeral d -> numeral e -> numeral f ->
  strings.ContainsAny ref ":" = false ->
  strings.HasPrefix (coverLine ref a b c d e f) "mode:" = false ->
  exists blk,
    parseCoverageLine build_Import isDir (coverLine ref a b c d e f) st
    = (let '(fl, er, st') := findFile build_Import ref st in
       match er with
       | Some _ => (Returns (EmptyString, None, false), st')
       | None => (Returns (getCoverallsSourceFileName isDir fl, Some blk, true), st')
       end)
    /\ strconv.Itoa (startLine blk) = a
    /\ strconv.Itoa (startChar blk) = b
    /\ strconv.Itoa (endLine blk) = c
    /\ strconv.Itoa (endChar blk) = d
    /\ strconv.Itoa (statements blk) = e
    /\ strconv.Itoa (covered blk) = f.
Proof.
  intros Ha Hb Hc Hd He Hf Href Hmode.
  exists (mkBlock (fst (strconv.Atoi a)) (fst (strconv.Atoi b))
            (fst (strconv.Atoi c)) (fst (strconv.Atoi d))
            (fst (strconv.Atoi e)) (fst (strconv.Atoi f))).
  split; [|repeat split; cbn [startLine startChar endLine endChar statements covered];
            apply Itoa_Atoi; assumption].
  apply parseCoverageLine_coverLine; [|exact Hmode].
  constructor; [exact Href | apply canonical_free; [reflexivity|] ..].
  - apply Ha. 
  - apply Hb.
  - apply Hc.
  - apply Hd.
  - apply He.
  - apply Hf.
Qed.

(** The space and comma checks reject as the colon check does. *)
Lemma parseCoverageLine_space_comma_mismatch line ref rest st :
  strings.HasPrefix line "mode:" = false ->
  strings.Split line ":" = [ref; rest] ->
  (length (strings.Split rest " ") <> 3%nat
   \/ exists rng e f, strings.Split rest " " = [rng; e; f]
                      /\ length (strings.Split rng ",") <> 2%nat) ->
  parseCoverageLine build_Import isDir line st
  = (Returns (EmptyString, None, false), st).
Proof.
  intros Hmode Hpath H. unfold parseCoverageLine. rewrite Hmode, Hpath.
  cbn [length Nat.eqb negb index lookup list_lookup mbind outcome_bind].
  destruct H as [H|(rng & e & f & Hparts & H)].
  - apply Nat.eqb_neq in H. rewrite H. reflexivity.
  - rewrite Hparts.
    cbn [length Nat.eqb negb index lookup list_lookup mbind outcome_bind].
    apply Nat.eqb_neq in H. rewrite H. reflexivity.
Qed.

End Parser.

(** * The repository root locator *)

(** C7.  [findRepositoryRoot] is a total function: its recursion is
    well founded because the parent of a directory that is not its own
    parent is smaller ([filepath.Dir_measure]).  From [dir] it makes some
    number [k] of ascents, at most [dirMeasure dir]; none of the [k]
    directories left behind holds any of the four marker directories
    [.git], [.hg], [.bzr], [.svn] and none of them is its own parent; the
    directory reached either holds one of the four marker directories and
    is returned with [true], so it is the innermost such directory, or
    holds none of the four and is its own parent, and the result is the
    empty root with [false]. *)
Theorem findRepositoryRoot_ascent isDir dir :
  exists k,
    (k <= filepath.dirMeasure dir)%nat
    /\ (forall j, (j < k)%nat ->
           (forall vcsdir, In vcsdir [".git"; ".hg"; ".bzr"; ".svn"]%string ->
                           isDir (filepath.Join (ancestor j dir) vcsdir) = false)
           /\ String.eqb (filepath.Dir (ancestor j dir)) (ancestor j dir) = false)
    /\ (((exists vcsdir, In vcsdir [".git"; ".hg"; ".bzr"; ".svn"]%string
                         /\ isDir (filepath.Join (ancestor k dir) vcsdir) = true)
         /\ findRepositoryRoot isDir dir = (ancestor k dir, true))
        \/ ((forall vcsdir, In vcsdir [".git"; ".hg"; ".bzr"; ".svn"]%string ->
                            isDir (filepath.Join (ancestor k dir) vcsdir) = false)
            /\ filepath.Dir (ancestor k dir) = ancestor k dir
            /\ findRepositoryRoot isDir dir = (EmptyString, false))).
Proof.
  destruct (findRepositoryRoot_ascent_aux isDir _ dir eq_refl)
    as (k & Hk & Hbelow & Hend).
  exists k. split; [exact Hk|]. split.
  - intros j Hj. destruct (Hbelow j Hj) as [Hv Hp]. split; [|exact Hp].
    exact (hasVcsDir_none isDir _ Hv).
  - destruct Hend as [[Hv Hr]|(Hv & Hp & Hr)]; [left|right].
    + split; [|exact Hr]. apply hasVcsDir_iff in Hv. exact Hv.
    + split; [exact (hasVcsDir_none isDir _ Hv)|]. split; [exact Hp | exact Hr].
Qed.

(** C6 (amended).  [getCoverallsSourceFileName] runs [findRepositoryRoot]
    on the path itself, so the path is the first directory probed for a
    marker.  With no root found the path is returned unchanged; with a root
    found the result is [strings.TrimPrefix] of the path by the root
    followed by the separator, which is the rest of the path when the path
    starts with that prefix.  Whenever the path does not itself hold a
    marker directory this is the computation on its directory portion that
    the specification describes. *)
Theorem getCoverallsSourceFileName_spec isDir name :
  (forall root, findRepositoryRoot isDir name = (root, false) ->
                getCoverallsSourceFileName isDir name = name)
  /\ (forall root, findRepositoryRoot isDir name = (root, true) ->
         getCoverallsSourceFileName isDir name
         = strings.TrimPrefix name (root +:+ "/"))
  /\ (forall root rel, findRepositoryRoot isDir name = (root, true) ->
         name = root +:+ "/" +:+ rel ->
         getCoverallsSourceFileName isDir name = rel)
  /\ (hasVcsDir isDir name = false ->
      getCoverallsSourceFileName isDir name = shorten_spec isDir name).
Proof.
  unfold getCoverallsSourceFileName, shorten_spec.
  split; [|split; [|split]].
  - intros root ->. reflexivity.
  - intros root ->. reflexivity.
  - intros root rel -> ->. rewrite <- append_assoc. apply TrimPrefix_append.
  - intros Hv. rewrite (findRepositoryRoot_eq isDir name), Hv.
    destruct (String.eqb (filepath.Dir name) name) eqn:E; [|reflexivity].
    apply String.eqb_eq in E. rewrite E.
    rewrite (findRepositoryRoot_eq isDir name), Hv, E, String.eqb_refl.
    reflexivity.
Qed.

(** * The path resolver *)

(** C8.  After a reference has been resolved, and whatever other
    references are resolved in between, resolving a reference with the same
    directory portion returns the path and the error of the first
    resolution and leaves the state as it is: no entry is added to the
    cache and [build.Import] is not called.  The first resolution has
    stored its outcome, success or failure, under the directory portion. *)
Theorem findFile_memoized build_Import ref1 between ref2 st :
  fst (filepath.Split ref1) = fst (filepath.Split ref2) ->
  let '(f1, e1, st1) := findFile build_Import ref1 st in
  let st2 := resolveAll build_Import between st1 in
  pkgCache st1 !! fst (filepath.Split ref1) = Some (mkCacheResult f1 e1)
  /\ findFile build_Import ref2 st2 = (f1, e1, st2)
  /\ importCalls (snd (findFile build_Import ref2 st2)) = importCalls st2.
Proof.
  intros Hdir.
  pose proof (findFile_stores build_Import ref1 st) as Hst.
  destruct (findFile build_Import ref1 st) as [[f1 e1] st1]. simpl in Hst.
  cbv zeta.
  assert (Hhit : findFile build_Import ref2 (resolveAll build_Import between st1)
                 = (f1, e1, resolveAll build_Import between st1)).
  { rewrite (findFile_cached build_Import ref2 _ (mkCacheResult f1 e1));
      [reflexivity|].
    rewrite <- Hdir. apply resolveAll_keeps. exact Hst. }
  split; [exact Hst|]. split; [exact Hhit|]. rewrite Hhit. reflexivity.
Qed.

(** * The report emitter *)

Lemma inInt_maxInt : inInt maxInt.
Proof. unfold inInt. cbv. split; discriminate. Qed.

Lemma daLines_entries blocks :
  flat_map daLines blocks
  = map (fun en => daLine (fst en) (snd en)) (entries blocks).
Proof.
  unfold entries. induction blocks as [|b blocks IH]; [reflexivity|].
  cbn [flat_map]. rewrite map_app, <- IH. f_equal.
  unfold daLines. rewrite map_map. reflexivity.
Qed.

Lemma entries_app xs ys : entries (xs ++ ys) = entries xs ++ entries ys.
Proof. unfold entries. apply flat_map_app. Qed.

Lemma entries_length blocks : Z.of_nat (length (entries blocks)) = totalLines blocks.
Proof.
  rewrite <- flat_map_daLines_length, daLines_entries, length_map. reflexivity.
Qed.

(** What C2 says holds for every block whose last line is below the
    largest [int]: one [DA] line for each line number from [startLine] to
    [endLine], in order, each with the hit count of the block, the counter
    of lines found advanced once per line and the counter of lines hit
    once per line of a block that was executed. *)
Lemma block_expansion b total coveredLines w fuel :
  blockOk b ->
  startLine b <= endLine b ->
  inInt total ->
  inInt coveredLines ->
  (Z.to_nat (endLine b - startLine b + 1) < fuel)%nat ->
  exists das,
    lineLoop fuel b (startLine b) total coveredLines w
    = Some (wrap (total + (endLine b - startLine b + 1)),
            wrap (coveredLines
                  + (if 0 <? covered b then endLine b - startLine b + 1 else 0)),
            w ++ das)
    /\ Z.of_nat (length das) = endLine b - startLine b + 1
    /\ forall k, (Z.of_nat k < endLine b - startLine b + 1) ->
                 das !! k = Some (daLine (startLine b + Z.of_nat k) (covered b)).
Proof.
  intros Hok Hle Ht Hc Hfuel.
  assert (Hn : lineCount b = endLine b - startLine b + 1)
    by (unfold lineCount; lia).
  exists (daLines b). split; [|split].
  - rewrite lineLoop_block by (assumption || (rewrite Hn; exact Hfuel)).
    rewrite Hn. reflexivity.
  - rewrite daLines_length. exact Hn.
  - intros k Hk. unfold daLines, linesOf.
    rewrite list_lookup_fmap, linesFrom_lookup by lia. reflexivity.
Qed.

(** What C3 says holds for every sequence of blocks that stay below the
    largest [int]: the record lists the entries of each block in turn, a
    line number lying in the ranges of two blocks has an entry for each of
    them, and both totals count every entry. *)
Lemma overlap_expanded_twice filePath before b1 between b2 after l w fuel :
  Forall blockOk (before ++ b1 :: between ++ b2 :: after) ->
  startLine b1 <= l <= endLine b1 ->
  startLine b2 <= l <= endLine b2 ->
  (Z.to_nat (totalLines (before ++ b1 :: between ++ b2 :: after)) < fuel)%nat ->
  let blocks := before ++ b1 :: between ++ b2 :: after in
  writeLcovRecord fuel filePath blocks w
  = Some (w ++ ["TN:" +:+ newline; "SF:" +:+ filePath +:+ newline]
            ++ map (fun en => daLine (fst en) (snd en)) (entries blocks)
            ++ ["LF:" +:+ strconv.Itoa (wrap (Z.of_nat (length (entries blocks))))
                  +:+ newline;
                "LH:" +:+ strconv.Itoa (wrap (hitLines blocks)) +:+ newline;
                "end_of_record" +:+ newline])
  /\ exists e1 e2 e3,
       entries blocks = e1 ++ (l, covered b1) :: e2 ++ (l, covered b2) :: e3.
Proof.
  intros Hok H1 H2 Hfuel blocks. split.
  - rewrite writeLcovRecord_spec by assumption.
    rewrite daLines_entries, entries_length. reflexivity.
  - assert (Hin : forall b, startLine b <= l <= endLine b ->
                   exists x y, entries [b] = x ++ (l, covered b) :: y).
    { intros b Hb. unfold entries. cbn [flat_map]. rewrite app_nil_r.
      apply in_split. apply in_map_iff. exists l. split; [reflexivity|].
      apply linesOf_In. exact Hb. }
    destruct (Hin b1 H1) as (x1 & y1 & E1). destruct (Hin b2 H2) as (x2 & y2 & E2).
    exists (entries before ++ x1), (y1 ++ entries between ++ x2),
      (y2 ++ entries after).
    subst blocks.
    change (b1 :: between ++ b2 :: after) with ([b1] ++ between ++ [b2] ++ after).
    rewrite !entries_app, E1, E2, <- !app_assoc. cbn [app].
    rewrite <- ?app_assoc. reflexivity.
Qed.

(** A block with [startLine > endLine] adds no entry and nothing to the
    counters. *)
Lemma inverted_block_is_empty b :
  endLine b < startLine b -> lineCount b = 0 /\ daLines b = [].
Proof.
  intros H. unfold daLines, linesOf, lineCount.
  replace (Z.max 0 (endLine b - startLine b + 1)) with 0 by lia.
  split; reflexivity.
Qed.

Lemma lineLoop_inverted b total coveredLines w fuel :
  endLine b < startLine b ->
  lineLoop (S fuel) b (startLine b) total coveredLines w
  = Some (total, coveredLines, w).
Proof.
  intros H. cbn [lineLoop].
  replace (startLine b <=? endLine b) with false
    by (symmetry; apply Z.leb_gt; exact H).
  reflexivity.
Qed.

(** C10 (amended).  For every block sequence in which no block ends at the
    largest [int] and whose ranges hold fewer than [2 ^ 63] lines in all,
    the emitter returns, the total [LF] it writes is the number of [DA]
    lines of the record and the total [LH] the number of those that belong
    to an executed block, so that [0 <= LH <= LF].  A block with
    [startLine > endLine] leaves the line loop at once, with both counters
    and the output as they were. *)
Theorem totals_are_ordered filePath blocks w :
  Forall blockOk blocks ->
  totalLines blocks <= maxInt ->
  (exists lf lh,
     0 <= lh <= lf
     /\ lf = Z.of_nat (length (flat_map daLines blocks))
     /\ lh = hitLines blocks
     /\ forall fuel, (Z.to_nat (totalLines blocks) < fuel)%nat ->
          writeLcovRecord fuel filePath blocks w
          = Some (w ++ ["TN:" +:+ newline; "SF:" +:+ filePath +:+ newline]
                    ++ flat_map daLines blocks
                    ++ ["LF:" +:+ strconv.Itoa lf +:+ newline;
                        "LH:" +:+ strconv.Itoa lh +:+ newline;
                        "end_of_record" +:+ newline]))
  /\ (forall b total coveredLines w' fuel,
        endLine b < startLine b ->
        lineLoop (S fuel) b (startLine b) total coveredLines w'
        = Some (total, coveredLines, w')).
Proof.
  intros Hok Hmax. split; [|intros; apply lineLoop_inverted; assumption].
  exists (totalLines blocks), (hitLines blocks).
  pose proof (hitLines_bounds blocks) as Hb.
  assert (Hmin : minInt <= 0) by (cbv; discriminate).
  split; [exact Hb|]. split; [symmetry; apply flat_map_daLines_length|].
  split; [reflexivity|]. intros fuel Hfuel.
  rewrite writeLcovRecord_spec by assumption.
  rewrite !wrap_id by (unfold inInt; lia). reflexivity.
Qed.

(** C2 (code at the failing input).  For a block with
    [startLine = endLine = maxInt] the claim asks for exactly one [DA]
    line.  The loop [for i := b.startLine; i <= b.endLine; i++] writes it,
    wraps [i] to the smallest [int], and its condition holds again: no
    amount of fuel lets [writeLcovRecord] reach the totals. *)
Theorem writeLcovRecord_loops_at_maxInt fuel filePath w :
  writeLcovRecord fuel filePath [mkBlock maxInt 1 maxInt 1 1 1] w = None.
Proof.
  unfold writeLcovRecord.
  rewrite (blockLoop_diverges fuel [] (mkBlock maxInt 1 maxInt 1 1 1) []);
    [reflexivity | constructor | apply inInt_maxInt | reflexivity].
Qed.

(** C3 (code at the failing input).  The blocks [4..maxInt] and [3..5]
    overlap on the lines 4 and 5.  The line loop of the first block never
    ends: the second block is never expanded, and the record never gets
    the totals that should count the lines 4 and 5 twice. *)
Theorem writeLcovRecord_overlap_unfinished fuel filePath w :
  writeLcovRecord fuel filePath
    [mkBlock 4 1 maxInt 1 1 1; mkBlock 3 1 5 1 1 1] w = None.
Proof.
  unfold writeLcovRecord.
  rewrite (blockLoop_diverges fuel [] (mkBlock 4 1 maxInt 1 1 1)
             [mkBlock 3 1 5 1 1 1]); [reflexivity | constructor | | reflexivity].
  unfold inInt. cbv. split; discriminate.
Qed.

(** C10 (counterexample).  The blocks [0 .. maxInt - 1] and [0 .. 0], both
    executed, expand to [2 ^ 63] lines.  The emitter returns, and both
    counters have wrapped: the record reads [LF:-9223372036854775808] and
    [LH:-9223372036854775808]. *)
Lemma totals_wrap_negative :
  exists fuel0 das, forall fuel, (fuel0 <= fuel)%nat ->
    writeLcovRecord fuel "pkg/file.go"
      [mkBlock 0 1 9223372036854775806 1 1 1; mkBlock 0 1 0 1 1 1] []
    = Some (["TN:" +:+ newline; "SF:pkg/file.go" +:+ newline]
              ++ das
              ++ ["LF:-9223372036854775808" +:+ newline;
                  "LH:-9223372036854775808" +:+ newline;
                  "end_of_record" +:+ newline]).
Proof.
  set (blocks := [mkBlock 0 1 9223372036854775806 1 1 1; mkBlock 0 1 0 1 1 1]).
  assert (Hok : Forall blockOk blocks).
  { subst blocks. constructor; [|constructor; [|constructor]];
      unfold blockOk, inInt; cbv; intuition discriminate. }
  pose proof (fun fuel => writeLcovRecord_spec "pkg/file.go" blocks [] fuel Hok)
    as Hspec.
  assert (Ht : wrap (totalLines blocks) = minInt) by (vm_compute; reflexivity).
  assert (Hh : wrap (hitLines blocks) = minInt) by (vm_compute; reflexivity).
  assert (Hs : strconv.Itoa minInt = "-9223372036854775808"%string)
    by (vm_compute; reflexivity).
  rewrite Ht, Hh, Hs in Hspec. clear Ht Hh Hs Hok.
  revert Hspec. generalize (flat_map daLines blocks) as das.
  generalize (Z.to_nat (totalLines blocks)) as n. intros n das Hspec.
  exists (S n), das. intros fuel Hfuel. rewrite Hspec by exact Hfuel.
  reflexivity.
Qed.

(** * Concrete inputs *)

(** C4 (counterexample).  The line holds a colon, and a second one after
    its hit count.  Cut at the first colon only, its remainder
    [3.10,5.2 2 1:] has the three fields the grammar asks for; the parser
    cuts at both colons, finds three segments and rejects the line without
    calling the resolver, although the same line without the second colon
    is accepted. *)
Lemma further_colon_is_rejected :
  strings.Split "example.com/pkg/file.go:3.10,5.2 2 1:" ":"
  = ["example.com/pkg/file.go"; "3.10,5.2 2 1"; ""]%string
  /\ length (strings.Split "3.10,5.2 2 1:" " ") = 3%nat
  /\ parseCoverageLine exImport exIsDir
       "example.com/pkg/file.go:3.10,5.2 2 1:" initialState
     = (Returns (EmptyString, None, false), initialState)
  /\ fst (parseCoverageLine exImport exIsDir
            "example.com/pkg/file.go:3.10,5.2 2 1" initialState)
     = Returns ("pkg/file.go"%string, Some (mkBlock 3 10 5 2 2 1), true).
Proof. repeat split; vm_compute; reflexivity. Qed.

(** C5 (counterexample).  The start line [99999999999999999999] does not
    parse as an [int]: [Atoi] reports a range error.  The block does not
    hold zero for it but the largest [int]. *)
Lemma out_of_range_field_is_not_zero :
  strconv.Atoi "99999999999999999999" = (9223372036854775807, Some strconv.ErrRange)
  /\ fst (parseCoverageLine exImport exIsDir
            "example.com/pkg/file.go:99999999999999999999.10,5.2 2 1" initialState)
     = Returns ("pkg/file.go"%string,
                Some (mkBlock 9223372036854775807 10 5 2 2 1), true).
Proof. split; vm_compute; reflexivity. Qed.

(** C6 (counterexample).  [/a/r] holds a [.git] directory and lies in the
    repository [/a].  Computed on the directory portion [/a], the root is
    [/a] and the shortened path is [r]; the code probes [/a/r] itself,
    finds the root [/a/r], and returns the path as it was given. *)
Lemma shorten_probes_the_path_itself :
  filepath.Dir "/a/r" = "/a"%string
  /\ findRepositoryRoot nestedRepos "/a" = ("/a"%string, true)
  /\ shorten_spec nestedRepos "/a/r" = "r"%string
  /\ findRepositoryRoot nestedRepos "/a/r" = ("/a/r"%string, true)
  /\ getCoverallsSourceFileName nestedRepos "/a/r" = "/a/r"%string.
Proof. repeat split; vm_compute; reflexivity. Qed.

(** The fields [3x], the empty text, [-] and an out-of-range numeral on a
    line of the sample package. *)
Lemma numeric_fields_are_lenient_witness :
  wellShaped "example.com/pkg/file.go" "3x" "" "99999999999999999999" "-" "2" "+7"
  /\ strings.HasPrefix
       (coverLine "example.com/pkg/file.go" "3x" "" "99999999999999999999" "-"
          "2" "+7") "mode:" = false
  /\ fst (parseCoverageLine exImport exIsDir
            (coverLine "example.com/pkg/file.go" "3x" "" "99999999999999999999"
               "-" "2" "+7") initialState)
     = Returns ("pkg/file.go"%string,
                Some (mkBlock 0 0 9223372036854775807 0 2 7), true).
Proof.
  assert (Hshape : wellShaped "example.com/pkg/file.go" "3x" ""
                     "99999999999999999999" "-" "2" "+7")
    by (constructor; reflexivity).
  split; [exact Hshape|]. split; [reflexivity|].
  rewrite (proj1 (numeric_fields_are_lenient exImport exIsDir _ _ _ _ _ _ _
                    initialState Hshape eq_refl)).
  vm_compute. reflexivity.
Defined.

(** Two files of the sample package, with a reference to an unknown
    package resolved in between. *)
Lemma findFile_memoized_witness :
  fst (filepath.Split "example.com/pkg/a.go")
  = fst (filepath.Split "example.com/pkg/b.go")
  /\ (let '(f1, e1, st1) :=
         findFile exImport "example.com/pkg/a.go" initialState in
      let st2 := resolveAll exImport ["other.org/x/y.go"%string] st1 in
      pkgCache st1 !! fst (filepath.Split "example.com/pkg/a.go")
      = Some (mkCacheResult f1 e1)
      /\ findFile exImport "example.com/pkg/b.go" st2 = (f1, e1, st2)
      /\ importCalls (snd (findFile exImport "example.com/pkg/b.go" st2))
         = importCalls st2).
Proof.
  split; [reflexivity|].
  exact (findFile_memoized exImport "example.com/pkg/a.go"
           ["other.org/x/y.go"%string] "example.com/pkg/b.go" initialState eq_refl).
Defined.

(** The first line of the end-to-end scenario of the specification. *)
Lemma numeric_payload_roundtrip_witness :
  (numeral "3" /\ numeral "10" /\ numeral "5" /\ numeral "2" /\ numeral "1")
  /\ exists blk,
       parseCoverageLine exImport exIsDir
         (coverLine "example.com/pkg/file.go" "3" "10" "5" "2" "2" "1")
         initialState
       = (let '(fl, er, st') :=
            findFile exImport "example.com/pkg/file.go" initialState in
          match er with
          | Some _ => (Returns (EmptyString, None, false), st')
          | None =>
              (Returns (getCoverallsSourceFileName exIsDir fl, Some blk, true), st')
          end)
       /\ strconv.Itoa (startLine blk) = "3"%string
       /\ strconv.Itoa (startChar blk) = "10"%string
       /\ strconv.Itoa (endLine blk) = "5"%string
       /\ strconv.Itoa (endChar blk) = "2"%string
       /\ strconv.Itoa (statements blk) = "2"%string
       /\ strconv.Itoa (covered blk) = "1"%string.
Proof.
  assert (H3 : numeral "3") by (split; reflexivity).
  assert (H10 : numeral "10") by (split; reflexivity).
  assert (H5 : numeral "5") by (split; reflexivity).
  assert (H2 : numeral "2") by (split; reflexivity).
  assert (H1 : numeral "1") by (split; reflexivity).
  split; [repeat split; assumption|].
  exact (numeric_payload_roundtrip exImport exIsDir "example.com/pkg/file.go"
           "3" "10" "5" "2" "2" "1" initialState H3 H10 H5 H2 H2 H1
           eq_refl eq_refl).
Defined.

(** The two blocks of the end-to-end scenario and an inverted block. *)
Lemma totals_are_ordered_witness :
  Forall blockOk [mkBlock 3 10 5 2 2 1; mkBlock 7 1 7 1 1 0; mkBlock 9 1 8 1 1 1]
  /\ totalLines [mkBlock 3 10 5 2 2 1; mkBlock 7 1 7 1 1 0; mkBlock 9 1 8 1 1 1]
     <= maxInt
  /\ exists lf lh,
       0 <= lh <= lf
       /\ writeLcovRecord 10 "pkg/file.go"
            [mkBlock 3 10 5 2 2 1; mkBlock 7 1 7 1 1 0; mkBlock 9 1 8 1 1 1] []
          = Some (["TN:" +:+ newline; "SF:pkg/file.go" +:+ newline]
                    ++ flat_map daLines
                         [mkBlock 3 10 5 2 2 1; mkBlock 7 1 7 1 1 0;
                          mkBlock 9 1 8 1 1 1]
                    ++ ["LF:" +:+ strconv.Itoa lf +:+ newline;
                        "LH:" +:+ strconv.Itoa lh +:+ newline;
                        "end_of_record" +:+ newline]).
Proof.
  assert (Hok : Forall blockOk
                  [mkBlock 3 10 5 2 2 1; mkBlock 7 1 7 1 1 0; mkBlock 9 1 8 1 1 1]).
  { repeat constructor; vm_compute; discriminate. }
  assert (Hmax : totalLines
                   [mkBlock 3 10 5 2 2 1; mkBlock 7 1 7 1 1 0; mkBlock 9 1 8 1 1 1]
                 <= maxInt) by (vm_compute; discriminate).
  split; [exact Hok|]. split; [exact Hmax|].
  destruct (proj1 (totals_are_ordered "pkg/file.go" _ [] Hok Hmax))
    as (lf & lh & Hle & _ & _ & Hrun).
  exists lf, lh. split; [exact Hle|]. apply Hrun. vm_compute. lia.
Defined.

(** * The aggregator and the report

    The rest of [main.go]: [parseCoverage], which scans the profile line by
    line, and [lcov], which writes one record per file of the grouping. *)

(** ** [bufio.Scanner] with the default split function [bufio.ScanLines]

    The reader is taken to hand over [input] and then to report the end of
    the file, or an error, on a read that carries no byte, as [*os.File]
    does. *)

Inductive scanError : Type :=
| ErrTooLong
| readError (cause : string).

Definition maxScanTokenSize : Z := 64 * 1024.

(** The lines of the input, end-of-line markers removed: the bytes between
    the newlines, and the bytes after the last newline when there are
    any. *)
Fixpoint rawLines (s : string) : list string :=
  match s with
  | EmptyString => []
  | String c s' =>
      if Ascii.eqb c "010" then EmptyString :: rawLines s'
      else match rawLines s' with
           | l :: ls => String c l :: ls
           | [] => [String c EmptyString]
           end
  end.

(** [dropCR]: a line loses one carriage return at its end. *)
Fixpoint dropCR (s : string) : string :=
  match s with
  | EmptyString => EmptyString
  | String c EmptyString => if Ascii.eqb c "013" then EmptyString else s
  | String c s' => String c (dropCR s')
  end.

Definition fitsBuffer (l : string) : bool :=
  Z.of_nat (String.length l) <? maxScanTokenSize.

(** The lines left before the first one that does not fit. *)
Fixpoint scannable (raw : list string) : list string :=
  match raw with
  | [] => []
  | l :: ls => if fitsBuffer l then l :: scannable ls else []
  end.

(** The tokens [scanner.Scan] delivers, and whether the scan ended on a
    line that outgrew the buffer of the scanner ([bufio.ErrTooLong]). *)
Definition scanLines (input : string) : list string * bool :=
  (map dropCR (scannable (rawLines input)), negb (forallb fitsBuffer (rawLines input))).

(** ** [parseCoverage] *)

(** How a run of the aggregator ends: with its result, with a panic, or
    with [log.Fatal]. *)
Inductive run (A : Type) : Type :=
| Done (a : A)
| Panicked
| Fatal (e : scanError).
Arguments Done {A} a.
Arguments Panicked {A}.
Arguments Fatal {A} e.

Section Aggregator.

Variable build_Import : string -> importResult.
Variable isDir : string -> bool.

(** [blocks[f] = append(blocks[f], b)], the key being created first. *)
Definition addBlock (blocks : gmap string (list block)) (f : string) (b : block)
    : gmap string (list block) :=
  <[f := default [] (blocks !! f) ++ [b]]> blocks.

(** The loop [for scanner.Scan() { ... }] over the tokens of the scanner.
    [parseCoverageLine] returns a block exactly when it returns [ok]
    ([parseCoverageLine_shape]), so a block is at hand wherever [ok] holds. *)
Fixpoint scanLoop (lines : list string) (blocks : gmap string (list block))
    (st : state) : outcome (gmap string (list block)) * state :=
  match lines with
  | [] => (Returns blocks, st)
  | line :: rest =>
      match parseCoverageLine build_Import isDir line st with
      | (Panics, st') => (Panics, st')
      | (Returns (f, Some b, true), st') => scanLoop rest (addBlock blocks f b) st'
      | (Returns _, st') => scanLoop rest blocks st'
      end
  end.

(** [parseCoverage coverage], the reader [coverage] handing over [input]
    and then failing with [failure], if any. *)
Definition parseCoverage (input : string) (failure : option string) (st : state)
    : run (gmap string (list block)) * state :=
  let (lines, tooLong) := scanLines input in
  match scanLoop lines ∅ st with
  | (Panics, st') => (Panicked, st')
  | (Returns blocks, st') =>
      if tooLong then (Fatal ErrTooLong, st')
      else match failure with
           | Some cause => (Fatal (readError cause), st')
           | None => (Done blocks, st')
           end
  end.

End Aggregator.

(** ** [lcov]

    A [range] over a Go map visits every entry once, in an order that is
    not specified: [lcovIn] writes the records of the entries in a given
    order, and [lcov] holds of every output that some order of the entries
    of the grouping gives.  The writer starts empty and is flushed at the
    end, so the output is what has been written. *)

Fixpoint lcovIn (fuel : nat) (order : list (string * list block))
    (w : list string) : option (list string) :=
  match order with
  | [] => Some w
  | (file, fileBlocks) :: rest =>
      match writeLcovRecord fuel file fileBlocks w with
      | None => None
      | Some w' => lcovIn fuel rest w'
      end
  end.

Definition lcov (fuel : nat) (blocks : gmap string (list block))
    (out : list string) : Prop :=
  exists order, order ≡ₚ map_to_list blocks /\ lcovIn fuel order [] = Some out.

(** The text of a profile whose lines are [lines], each ended by a
    newline. *)
Definition unlines (lines : list string) : string :=
  fold_right (fun l acc => l +:+ String "010" acc) EmptyString lines.

(** ** The package cache over a run *)

(** What the first resolution of [ref] stores. *)
Definition resultOf (build_Import : string -> importResult) (ref : string)
    : cacheResult :=
  match build_Import (fst (filepath.Split ref)) with
  | importErr e => mkCacheResult EmptyString (Some (cantFind (snd (filepath.Split ref)) e))
  | importOk pkgDir => mkCacheResult (filepath.Join pkgDir (snd (filepath.Split ref))) None
  end.

Definition sameDir (dir : string) (ref : string) : bool :=
  String.eqb (fst (filepath.Split ref)) dir.

(** The cache and the log of [build.Import] calls go together: the log
    holds no directory twice, and a directory is in the log exactly when the
    cache has it. *)
Definition cacheInv (st : state) : Prop :=
  NoDup (importCalls st)
  /\ forall dir, dir ∈ importCalls st <-> is_Some (pkgCache st !! dir).

Section CacheRun.

Variable build_Import : string -> importResult.
Variable isDir : string -> bool.

Lemma findFile_miss ref st :
  pkgCache st !! fst (filepath.Split ref) = None ->
  findFile build_Import ref st
  = (file (resultOf build_Import ref), err (resultOf build_Import ref),
     mkState (<[fst (filepath.Split ref) := resultOf build_Import ref]> (pkgCache st))
             (importCalls st ++ [fst (filepath.Split ref)])).
Proof.
  intros H. unfold findFile, resultOf.
  destruct (filepath.Split ref) as [dir f]. simpl in *. rewrite H.
  destruct (build_Import dir); reflexivity.
Qed.

Lemma cacheInv_initial : cacheInv initialState.
Proof.
  split; [constructor|]. intros dir. simpl. rewrite lookup_empty. split.
  - intros H. inversion H.
  - intros [x H]. discriminate H.
Qed.

Lemma cacheInv_findFile ref st :
  cacheInv st -> cacheInv (snd (findFile build_Import ref st)).
Proof.
  intros [Hnd Hdom].
  destruct (pkgCache st !! fst (filepath.Split ref)) as [r|] eqn:E.
  - rewrite (findFile_cached build_Import ref st r E). split; assumption.
  - rewrite (findFile_miss ref st E). unfold cacheInv. cbn [snd importCalls pkgCache]. split.
    + apply NoDup_app. split; [exact Hnd|]. split; [|apply NoDup_singleton].
      intros x Hx Hx'. apply list_elem_of_singleton in Hx'. subst x.
      apply Hdom in Hx. rewrite E in Hx. destruct Hx as [y Hy]. discriminate Hy.
    + intros dir. rewrite elem_of_app, list_elem_of_singleton.
      destruct (decide (dir = fst (filepath.Split ref))) as [->|Hne].
      * rewrite lookup_insert_eq. split; [eauto | auto].
      * rewrite lookup_insert_ne by congruence. rewrite Hdom. tauto.
Qed.

(** The shape of what [parseCoverageLine] returns, and what it does to the
    state. *)
Lemma parseCoverageLine_shape line st :
  match parseCoverageLine build_Import isDir line st with
  | (Panics, st') => st' = st
  | (Returns (f, ob, ok), st') =>
      ((ok = true /\ exists b, ob = Some b)
       \/ (ok = false /\ ob = None /\ f = EmptyString))
      /\ (st' = st \/ exists ref, st' = snd (findFile build_Import ref st))
  end.
Proof.
  unfold parseCoverageLine.
  match goal with |- context [match ?p with Returns _ => _ | Panics => _ end] =>
    destruct p as [[[ref b]|]|] end.
  - destruct (findFile build_Import ref st) as [[f e] st'] eqn:E.
    assert (Hst : st' = snd (findFile build_Import ref st)) by (rewrite E; reflexivity).
    destruct e; (split; [|right; eauto]); [right | left]; eauto.
  - split; [right|left]; auto.
  - reflexivity.
Qed.

Lemma cacheInv_parseCoverageLine line st :
  cacheInv st -> cacheInv (snd (parseCoverageLine build_Import isDir line st)).
Proof.
  intros H. pose proof (parseCoverageLine_shape line st) as Hs.
  destruct (parseCoverageLine build_Import isDir line st) as [[[[f ob] ok]|] st'];
    simpl.
  - destruct Hs as [_ [->|[ref ->]]]; [exact H | apply cacheInv_findFile, H].
  - subst st'. exact H.
Qed.

Lemma cacheInv_scanLoop lines : forall blocks st,
  cacheInv st -> cacheInv (snd (scanLoop build_Import isDir lines blocks st)).
Proof.
  induction lines as [|line lines IH]; intros blocks st H; [exact H|].
  cbn [scanLoop]. pose proof (cacheInv_parseCoverageLine line st H) as H'.
  destruct (parseCoverageLine build_Import isDir line st)
    as [[[[f [b|]] [|]]|] st']; simpl in H'; try (apply IH; exact H'). exact H'.
Qed.

(** X1.  Over a whole run of [parseCoverage] that starts with an empty
    cache, [build.Import] is called at most once for a directory, and it
    has been called for exactly the directories the cache holds at the
    end, however the run ends. *)
Theorem parseCoverage_imports_once input failure :
  NoDup (importCalls (snd (parseCoverage build_Import isDir input failure initialState)))
  /\ forall dir,
       dir ∈ importCalls (snd (parseCoverage build_Import isDir input failure initialState))
       <-> is_Some (pkgCache (snd (parseCoverage build_Import isDir input failure
                                     initialState)) !! dir).
Proof.
  assert (H : cacheInv (snd (parseCoverage build_Import isDir input failure initialState))).
  { unfold parseCoverage. destruct (scanLines input) as [lines tooLong].
    pose proof (cacheInv_scanLoop lines ∅ initialState cacheInv_initial) as H.
    destruct (scanLoop build_Import isDir lines ∅ initialState) as [[blocks|] st'];
      simpl in H; [|exact H].
    destruct tooLong; [exact H|]. destruct failure; exact H. }
  exact H.
Qed.

Lemma resolveAll_snoc refs ref st :
  resolveAll build_Import (refs ++ [ref]) st
  = snd (findFile build_Import ref (resolveAll build_Import refs st)).
Proof. unfold resolveAll. rewrite fold_left_app. reflexivity. Qed.

Lemma find_snoc {A} (p : A -> bool) l x :
  find p (l ++ [x]) = match find p l with Some y => Some y | None => find p [x] end.
Proof.
  induction l as [|y l IH]; [reflexivity|]. simpl. destruct (p y); [reflexivity|exact IH].
Qed.

(** After the references [refs] have been resolved from an empty cache, the
    cache holds, for a directory, what the first of them with that
    directory stored. *)
Lemma resolveAll_cache refs : forall dir,
  pkgCache (resolveAll build_Import refs initialState) !! dir
  = resultOf build_Import <$> find (sameDir dir) refs.
Proof.
  induction refs as [|ref refs IH] using rev_ind; intros dir.
  { simpl. apply lookup_empty. }
  rewrite resolveAll_snoc, find_snoc.
  destruct (pkgCache (resolveAll build_Import refs initialState)
              !! fst (filepath.Split ref)) as [r|] eqn:E.
  - rewrite (findFile_cached build_Import ref _ r E). simpl. rewrite IH.
    destruct (find (sameDir dir) refs) eqn:F; [reflexivity|]. simpl.
    unfold sameDir at 1. destruct (String.eqb _ dir) eqn:D; [|reflexivity].
    apply String.eqb_eq in D. subst dir. rewrite IH, F in E. discriminate E.
  - rewrite (findFile_miss ref _ E). simpl.
    destruct (decide (dir = fst (filepath.Split ref))) as [->|Hne].
    + rewrite lookup_insert_eq. rewrite IH in E.
      destruct (find _ refs); [discriminate E|]. simpl.
      unfold sameDir. rewrite String.eqb_refl. reflexivity.
    + rewrite lookup_insert_ne by congruence. rewrite IH.
      destruct (find (sameDir dir) refs); [reflexivity|]. simpl.
      unfold sameDir. replace (String.eqb _ dir) with false; [reflexivity|].
      symmetry. apply String.eqb_neq. congruence.
Qed.

(** X2.  What a reference resolves to after other references have been
    resolved is what the first reference of the same directory stored:
    whether it resolves depends on its directory alone, and when it does
    the path is the package directory joined with the file name of that
    first reference, not with its own. *)
Theorem findFile_answers_with_the_first_file refs ref :
  exists first,
    find (sameDir (fst (filepath.Split ref))) (refs ++ [ref]) = Some first
    /\ fst (filepath.Split first) = fst (filepath.Split ref)
    /\ fst (findFile build_Import ref (resolveAll build_Import refs initialState))
       = match build_Import (fst (filepath.Split ref)) with
         | importOk pkgDir =>
             (filepath.Join pkgDir (snd (filepath.Split first)), None)
         | importErr e =>
             (EmptyString, Some (cantFind (snd (filepath.Split first)) e))
         end.
Proof.
  pose proof (resolveAll_cache (refs ++ [ref]) (fst (filepath.Split ref))) as Hc.
  rewrite resolveAll_snoc in Hc.
  pose proof (findFile_stores build_Import ref
                (resolveAll build_Import refs initialState)) as Hs.
  rewrite Hs in Hc.
  destruct (find (sameDir (fst (filepath.Split ref))) (refs ++ [ref]))
    as [first|] eqn:F; [|discriminate Hc].
  exists first. split; [reflexivity|].
  assert (Hd : fst (filepath.Split first) = fst (filepath.Split ref)).
  { apply find_some in F as [_ F]. apply String.eqb_eq in F. exact F. }
  split; [exact Hd|]. simpl in Hc. injection Hc as Hc.
  destruct (findFile build_Import ref (resolveAll build_Import refs initialState))
    as [[f e] st']. simpl in *. unfold resultOf in Hc. rewrite Hd in Hc.
  destruct (build_Import (fst (filepath.Split ref))); injection Hc as -> ->;
    reflexivity.
Qed.

End CacheRun.

(** ** The outcomes of [parseCoverageLine] *)

Section Outcomes.

Variable build_Import : string -> importResult.
Variable isDir : string -> bool.

(** The tail of [parseCoverageLine]: the reference is resolved and the
    block returned with the shortened path. *)
Definition resolved (ref : string) (b : block) (st : state)
    : outcome (string * option block * bool) * state :=
  let '(f, e, st') := findFile build_Import ref st in
  match e with
  | Some _ => (Returns (EmptyString, None, false), st')
  | None => (Returns (getCoverallsSourceFileName isDir f, Some b, true), st')
  end.

(** [parseCoverageLine] by the shapes of its four splits. *)
Lemma parseCoverageLine_cases line st :
  parseCoverageLine build_Import isDir line st
  = if strings.HasPrefix line "mode:" then (Returns (EmptyString, None, false), st)
    else match strings.Split line ":" with
         | [ref; rest] =>
             match strings.Split rest " " with
             | [rng; n; h] =>
                 match strings.Split rng "," with
                 | [s; e] =>
                     match strings.Split s ".", strings.Split e "." with
                     | s0 :: s1 :: _, e0 :: e1 :: _ =>
                         resolved ref
                           (mkBlock (fst (strconv.Atoi s0)) (fst (strconv.Atoi s1))
                              (fst (strconv.Atoi e0)) (fst (strconv.Atoi e1))
                              (fst (strconv.Atoi n)) (fst (strconv.Atoi h))) st
                     | _, _ => (Panics, st)
                     end
                 | _ => (Returns (EmptyString, None, false), st)
                 end
             | _ => (Returns (EmptyString, None, false), st)
             end
         | _ => (Returns (EmptyString, None, false), st)
         end.
Proof.
  unfold parseCoverageLine, resolved.
  destruct (strings.HasPrefix line "mode:"); [reflexivity|].
  destruct (strings.Split line ":") as [|ref [|rest [|x xs]]]; try reflexivity.
  cbn [length Nat.eqb negb index lookup list_lookup mbind outcome_bind].
  destruct (strings.Split rest " ") as [|rng [|n [|h [|y ys]]]]; try reflexivity.
  cbn [length Nat.eqb negb index lookup list_lookup mbind outcome_bind].
  destruct (strings.Split rng ",") as [|s [|e [|z zs]]]; try reflexivity.
  cbn [length Nat.eqb negb index lookup list_lookup mbind outcome_bind].
  destruct (strings.Split s ".") as [|s0 [|s1 ss]]; try reflexivity.
  destruct (strings.Split e ".") as [|e0 [|e1 es]]; reflexivity.
Qed.

Lemma resolved_returns ref b st : fst (resolved ref b st) <> Panics.
Proof.
  unfold resolved. destruct (findFile build_Import ref st) as [[f e] st'].
  destruct e; discriminate.
Qed.

(** Whether a line makes [parseCoverageLine] panic does not depend on the
    cache. *)
Lemma parseCoverageLine_panics_any_state line st st0 :
  fst (parseCoverageLine build_Import isDir line st0) = Panics ->
  fst (parseCoverageLine build_Import isDir line st) = Panics.
Proof.
  rewrite !parseCoverageLine_cases.
  destruct (strings.HasPrefix line "mode:"); [discriminate|].
  destruct (strings.Split line ":") as [|ref [|rest [|x xs]]]; try discriminate.
  destruct (strings.Split rest " ") as [|rng [|n [|h [|y ys]]]]; try discriminate.
  destruct (strings.Split rng ",") as [|s [|e [|z zs]]]; try discriminate.
  destruct (strings.Split s ".") as [|s0 [|s1 ss]]; try reflexivity.
  destruct (strings.Split e ".") as [|e0 [|e1 es]]; try reflexivity.
  intros H. exfalso. exact (resolved_returns _ _ _ H).
Qed.

Lemma Split_two_or_more s c :
  (1 <= strings.Count s c)%nat ->
  exists x y zs, strings.Split s c = x :: y :: zs.
Proof.
  intros H. pose proof (Split_length s c) as Hl.
  destruct (strings.Split s c) as [|x [|y zs]]; simpl in Hl; try lia. eauto.
Qed.

(** X3.  [parseCoverageLine] panics on exactly the lines that pass its
    three length checks and whose start or end field holds no period: the
    line is not a mode header, it has one colon, two spaces after the colon
    and one comma in the range. *)
Theorem parseCoverageLine_panics_iff line st :
  fst (parseCoverageLine build_Import isDir line st) = Panics
  <-> strings.HasPrefix line "mode:" = false
      /\ exists ref rest rng n h s e,
           strings.Split line ":" = [ref; rest]
           /\ strings.Split rest " " = [rng; n; h]
           /\ strings.Split rng "," = [s; e]
           /\ (strings.Count s "." = 0%nat \/ strings.Count e "." = 0%nat).
Proof.
  rewrite parseCoverageLine_cases. split.
  - destruct (strings.HasPrefix line "mode:"); [discriminate|].
    destruct (strings.Split line ":") as [|ref [|rest [|x xs]]] eqn:E1;
      try discriminate.
    destruct (strings.Split rest " ") as [|rng [|n [|h [|y ys]]]] eqn:E2;
      try discriminate.
    destruct (strings.Split rng ",") as [|s [|e [|z zs]]] eqn:E3;
      try discriminate.
    intros H. split; [reflexivity|]. exists ref, rest, rng, n, h, s, e.
    split; [reflexivity|]. split; [exact E2|]. split; [exact E3|].
    pose proof (Split_length s ".") as Hs. pose proof (Split_length e ".") as He.
    destruct (strings.Split s ".") as [|s0 [|s1 ss]]; simpl in Hs;
      [lia | left; lia |].
    destruct (strings.Split e ".") as [|e0 [|e1 es]]; simpl in He;
      [lia | right; lia |].
    exfalso. exact (resolved_returns _ _ _ H).
  - intros (-> & ref & rest & rng & n & h & s & e & -> & -> & -> & Hdot).
    destruct Hdot as [Hdot|Hdot].
    + rewrite (Split_free s "." Hdot). reflexivity.
    + rewrite (Split_free e "." Hdot).
      destruct (strings.Split s ".") as [|s0 [|s1 ss]]; reflexivity.
Qed.

(** X4.  [parseCoverageLine] accepts exactly the lines that pass its three
    length checks, hold a period in both the start and the end field, and
    whose reference resolves; the block then carries the numbers read
    before the first and between the first and the second period, and the
    path is the shortened resolved path. *)
Theorem parseCoverageLine_accepts_iff line st f b st' :
  parseCoverageLine build_Import isDir line st = (Returns (f, Some b, true), st')
  <-> strings.HasPrefix line "mode:" = false
      /\ exists ref rest rng n h s e s0 s1 ss e0 e1 es,
           strings.Split line ":" = [ref; rest]
           /\ strings.Split rest " " = [rng; n; h]
           /\ strings.Split rng "," = [s; e]
           /\ strings.Split s "." = s0 :: s1 :: ss
           /\ strings.Split e "." = e0 :: e1 :: es
           /\ findFile build_Import ref st
              = (fst (fst (findFile build_Import ref st)), None, st')
           /\ f = getCoverallsSourceFileName isDir
                    (fst (fst (findFile build_Import ref st)))
           /\ b = mkBlock (fst (strconv.Atoi s0)) (fst (strconv.Atoi s1))
                    (fst (strconv.Atoi e0)) (fst (strconv.Atoi e1))
                    (fst (strconv.Atoi n)) (fst (strconv.Atoi h)).
Proof.
  rewrite parseCoverageLine_cases. split.
  - destruct (strings.HasPrefix line "mode:"); [discriminate|].
    destruct (strings.Split line ":") as [|ref [|rest [|x xs]]] eqn:E1;
      try discriminate.
    destruct (strings.Split rest " ") as [|rng [|n [|h [|y ys]]]] eqn:E2;
      try discriminate.
    destruct (strings.Split rng ",") as [|s [|e [|z zs]]] eqn:E3;
      try discriminate.
    destruct (strings.Split s ".") as [|s0 [|s1 ss]] eqn:E4; try discriminate.
    destruct (strings.Split e ".") as [|e0 [|e1 es]] eqn:E5; try discriminate.
    unfold resolved.
    destruct (findFile build_Import ref st) as [[fl er] st1] eqn:E.
    destruct er; [discriminate|]. intros [= <- <- <-].
    split; [reflexivity|].
    exists ref, rest, rng, n, h, s, e, s0, s1, ss, e0, e1, es.
    rewrite E2, E3, E4, E5, ?E. repeat split; reflexivity.
  - intros (-> & ref & rest & rng & n & h & s & e & s0 & s1 & ss & e0 & e1 & es
            & -> & -> & -> & -> & -> & Hf & -> & ->).
    unfold resolved. rewrite Hf. reflexivity.
Qed.

(** Behind a colon-free reference, the line is taken for the mode header
    exactly when the reference is [mode]. *)
Lemma HasPrefix_nil t : strings.HasPrefix t EmptyString = true.
Proof. destruct t; reflexivity. Qed.

Lemma HasPrefix_reference p : forall ref t,
  strings.Count ref ":" = 0%nat ->
  strings.Count p ":" = 0%nat ->
  strings.HasPrefix (ref +:+ String ":" t) (p +:+ ":") = String.eqb ref p.
Proof.
  induction p as [|x p IH]; intros ref t Hr Hp.
  - rewrite append_nil_l. destruct ref as [|c r].
    + rewrite append_nil_l. cbn [strings.HasPrefix].
      rewrite HasPrefix_nil. reflexivity.
    + rewrite append_cons. rewrite Count_cons in Hr. cbn [strings.HasPrefix].
      destruct (Ascii.eqb c ":"); [discriminate Hr | reflexivity].
  - rewrite Count_cons in Hp. rewrite append_cons.
    destruct ref as [|c r].
    + rewrite append_nil_l. cbn [strings.HasPrefix String.eqb].
      rewrite Ascii.eqb_sym. destruct (Ascii.eqb x ":"); [discriminate Hp | reflexivity].
    + rewrite Count_cons in Hr. rewrite append_cons.
      cbn [strings.HasPrefix String.eqb]. rewrite IH.
      * reflexivity.
      * destruct (Ascii.eqb c ":"); [discriminate Hr | exact Hr].
      * destruct (Ascii.eqb x ":"); [discriminate Hp | exact Hp].
Qed.

Lemma ContainsAny_field s :
  strings.ContainsAny s ": ,." = false -> strings.ContainsAny s ": ," = false.
Proof.
  induction s as [|x s IH]; [reflexivity|]. cbn [strings.ContainsAny].
  intros H. apply orb_false_iff in H as [Hx Hs]. rewrite (IH Hs), orb_false_r.
  revert Hx. unfold strings.IndexByte. cbn [strings.Count].
  destruct (Ascii.eqb ":" x), (Ascii.eqb " " x), (Ascii.eqb "," x),
    (Ascii.eqb "." x); cbn; congruence.
Qed.

(** Of the start and the end field the parser reads the text before the
    first period only, whatever the period split gives beside it. *)
Lemma parseCoverageLine_first_segments ref a b c d e f b' d' xs ys st :
  wellShaped ref a b c d e f ->
  strings.ContainsAny b' ": ," = false ->
  strings.ContainsAny d' ": ," = false ->
  strings.Split b' "." = b :: xs ->
  strings.Split d' "." = d :: ys ->
  parseCoverageLine build_Import isDir (coverLine ref a b' c d' e f) st
  = parseCoverageLine build_Import isDir (coverLine ref a b c d e f) st.
Proof.
  intros [Hr Ha Hb Hc Hd He Hf] Hb' Hd' Sb Sd.
  rewrite !parseCoverageLine_cases. unfold coverLine. rewrite !append_single.
  change "mode:"%string with ("mode" +:+ ":")%string.
  rewrite !HasPrefix_reference by (reflexivity || count_zero).
  destruct (String.eqb ref "mode"); [reflexivity|].
  rewrite !(Split_append ref ":") by count_zero.
  rewrite !(Split_free _ ":") by count_zero.
  rewrite (append_sep_assoc c "." d).
  rewrite (append_sep_assoc b "," _ (String " " _)).
  rewrite (append_sep_assoc a "." _ (String " " _)).
  rewrite (append_sep_assoc c "." d').
  rewrite (append_sep_assoc b' "," _ (String " " _)).
  rewrite (append_sep_assoc a "." _ (String " " _)).
  rewrite !(Split_append _ " ") by count_zero.
  rewrite !(Split_free f " ") by count_zero.
  rewrite (append_sep_assoc a "." b).
  rewrite (append_sep_assoc a "." b').
  rewrite !(Split_append _ ",") by count_zero.
  rewrite !(Split_free _ ",") by count_zero.
  rewrite !(Split_append a ".") by count_zero.
  rewrite !(Split_append c ".") by count_zero.
  rewrite Sb, Sd.
  rewrite (Split_free b "."), (Split_free d ".") by count_zero.
  reflexivity.
Qed.

(** X5.  What follows a second period in the start or in the end field is
    ignored, in either field alone as in both: the line is treated as if
    the field ended before that period. *)
Theorem further_period_segments_are_ignored ref a b c d e f b' d' st :
  wellShaped ref a b c d e f ->
  (b' = b
   \/ exists x, strings.ContainsAny x ": ," = false /\ b' = b +:+ "." +:+ x) ->
  (d' = d
   \/ exists y, strings.ContainsAny y ": ," = false /\ d' = d +:+ "." +:+ y) ->
  parseCoverageLine build_Import isDir (coverLine ref a b' c d' e f) st
  = parseCoverageLine build_Import isDir (coverLine ref a b c d e f) st.
Proof.
  intros Hshape Hb' Hd'.
  assert (Hext : forall t t',
             strings.ContainsAny t ": ,." = false ->
             (t' = t
              \/ exists x, strings.ContainsAny x ": ," = false
                           /\ t' = t +:+ "." +:+ x) ->
             strings.ContainsAny t' ": ," = false
             /\ exists xs, strings.Split t' "." = t :: xs).
  { intros t t' Ht [->|(x & Hx & ->)].
    - split; [apply ContainsAny_field, Ht|]. exists [].
      apply Split_free. count_zero.
    - rewrite append_single. split.
      + pose proof (ContainsAny_field t Ht) as Ht'. clear Ht.
        induction t as [|y t IH]; [exact Hx|].
        rewrite append_cons. cbn [strings.ContainsAny] in *.
        apply orb_false_iff in Ht' as [Hy Ht']. rewrite Hy. exact (IH Ht').
      + rewrite Split_append by count_zero. eexists. reflexivity. }
  destruct (Hext b b' (ws_b _ _ _ _ _ _ _ Hshape) Hb') as (Hcb & xs & Sb).
  destruct (Hext d d' (ws_d _ _ _ _ _ _ _ Hshape) Hd') as (Hcd & ys & Sd).
  exact (parseCoverageLine_first_segments _ _ _ _ _ _ _ _ _ _ _ st Hshape Hcb Hcd Sb Sd).
Qed.

End Outcomes.

(** ** Directories below a repository root *)

Section Below.

Variable isDir : string -> bool.

Lemma findRepositoryRoot_step dir :
  hasVcsDir isDir dir = false ->
  String.eqb (filepath.Dir dir) dir = false ->
  findRepositoryRoot isDir dir = findRepositoryRoot isDir (filepath.Dir dir).
Proof. intros Hv Hd. rewrite (findRepositoryRoot_eq isDir dir), Hv, Hd. reflexivity. Qed.

Lemma findRepositoryRoot_ancestors k : forall dir,
  (forall j, (j < k)%nat ->
     hasVcsDir isDir (ancestor j dir) = false
     /\ String.eqb (filepath.Dir (ancestor j dir)) (ancestor j dir) = false) ->
  forall j, (j <= k)%nat ->
    findRepositoryRoot isDir (ancestor j dir) = findRepositoryRoot isDir dir.
Proof.
  induction k as [|k IH]; intros dir Hbelow j Hj.
  - replace j with 0%nat by lia. reflexivity.
  - destruct j as [|j]; [reflexivity|]. cbn [ancestor].
    destruct (Hbelow 0%nat ltac:(lia)) as [Hv Hd]. cbn [ancestor] in Hv, Hd.
    rewrite (findRepositoryRoot_step dir Hv Hd). apply IH; [|lia].
    intros i Hi. apply (Hbelow (S i)). lia.
Qed.

(** X6.  When a root is found from a directory, it is one of the ancestors
    of that directory, and the search from every directory on the way up,
    the root included, finds the same root: all the directories between a
    file and the root of its repository agree on the root. *)
Theorem findRepositoryRoot_same_along_the_way dir root :
  findRepositoryRoot isDir dir = (root, true) ->
  exists k,
    root = ancestor k dir
    /\ forall j, (j <= k)%nat ->
         findRepositoryRoot isDir (ancestor j dir) = (root, true).
Proof.
  intros H.
  destruct (findRepositoryRoot_ascent_aux isDir _ dir eq_refl)
    as (k & _ & Hbelow & [[_ Hr]|(_ & _ & Hr)]); rewrite Hr in H; [|discriminate H].
  injection H as <-. exists k. split; [reflexivity|]. intros j Hj.
  rewrite (findRepositoryRoot_ancestors k dir Hbelow j Hj). exact Hr.
Qed.

End Below.

(** ** More on the emitter *)

Definition inBuffer (w : list string) (r : Z * Z * list string)
    : Z * Z * list string :=
  (fst (fst r), snd (fst r), w ++ snd r).

Lemma lineLoop_frame fuel : forall b i total coveredLines w w',
  lineLoop fuel b i total coveredLines (w ++ w')
  = inBuffer w <$> lineLoop fuel b i total coveredLines w'.
Proof.
  induction fuel as [|fuel IH]; intros b i total coveredLines w w'; [reflexivity|].
  cbn [lineLoop]. destruct (i <=? endLine b); [|reflexivity].
  rewrite <- app_assoc. apply IH.
Qed.

Lemma blockLoop_frame fuel blocks : forall total coveredLines w w',
  blockLoop fuel blocks total coveredLines (w ++ w')
  = inBuffer w <$> blockLoop fuel blocks total coveredLines w'.
Proof.
  induction blocks as [|b blocks IH]; intros total coveredLines w w'; [reflexivity|].
  cbn [blockLoop]. rewrite lineLoop_frame.
  destruct (lineLoop fuel b (startLine b) total coveredLines w') as [[[t c] o]|];
    [|reflexivity].
  simpl. apply IH.
Qed.

(** X7.  The record of a file does not depend on what the writer already
    holds, and the emitter leaves that untouched: writing after [w] gives
    [w] followed by what writing to an empty writer gives, and fails to
    return in the same cases. *)
Theorem writeLcovRecord_appends fuel filePath blocks w :
  writeLcovRecord fuel filePath blocks w
  = (fun record => w ++ record) <$> writeLcovRecord fuel filePath blocks [].
Proof.
  unfold writeLcovRecord. cbn [app].
  rewrite <- (app_assoc w).
  rewrite (blockLoop_frame fuel blocks 0 0 w).
  destruct (blockLoop fuel blocks 0 0 _) as [[[t c] o]|]; [|reflexivity].
  simpl. rewrite <- !app_assoc. reflexivity.
Qed.

(** The fields of a block the emitter reads. *)
Definition linesAndHits (b : block) : block :=
  mkBlock (startLine b) 0 (endLine b) 0 0 (covered b).

Lemma lineLoop_linesAndHits fuel : forall b i total coveredLines w,
  lineLoop fuel (linesAndHits b) i total coveredLines w
  = lineLoop fuel b i total coveredLines w.
Proof.
  induction fuel as [|fuel IH]; intros b i total coveredLines w; [reflexivity|].
  cbn [lineLoop linesAndHits endLine covered].
  destruct (i <=? endLine b); [apply IH | reflexivity].
Qed.

(** X8.  The record of a file depends on the start line, the end line and
    the hit count of its blocks only: the columns and the statement counts
    of the profile never reach the report. *)
Theorem writeLcovRecord_reads_lines_and_hits fuel filePath blocks w :
  writeLcovRecord fuel filePath (map linesAndHits blocks) w
  = writeLcovRecord fuel filePath blocks w.
Proof.
  unfold writeLcovRecord.
  assert (H : forall total coveredLines o,
             blockLoop fuel (map linesAndHits blocks) total coveredLines o
             = blockLoop fuel blocks total coveredLines o).
  { induction blocks as [|b blocks IH]; intros total coveredLines o; [reflexivity|].
    cbn [map blockLoop]. rewrite lineLoop_linesAndHits.
    cbn [linesAndHits startLine].
    destruct (lineLoop fuel b (startLine b) total coveredLines o) as [[[t c] o']|];
      [apply IH | reflexivity]. }
  rewrite H. reflexivity.
Qed.

Lemma Forall_notMax_blockOk blocks :
  Forall (fun b => inInt (startLine b) /\ inInt (endLine b)) blocks ->
  Forall (fun b => endLine b <> maxInt) blocks ->
  Forall blockOk blocks.
Proof.
  intros H1 H2. induction blocks as [|b blocks IH]; [constructor|].
  apply Forall_cons in H1 as [[Hs [_ He]] H1]. apply Forall_cons in H2 as [Hn H2].
  constructor; [|apply IH; assumption]. split; [exact Hs | lia].
Qed.

Lemma blockLoop_returns fuel blocks : forall total coveredLines w r,
  Forall (fun b => inInt (startLine b) /\ inInt (endLine b)) blocks ->
  blockLoop fuel blocks total coveredLines w = Some r ->
  Forall (fun b => endLine b <> maxInt) blocks.
Proof.
  induction blocks as [|b blocks IH]; intros total coveredLines w r Hint Hrun;
    [constructor|].
  apply Forall_cons in Hint as [[Hs He] Hint]. cbn [blockLoop] in Hrun.
  destruct (Z.eq_dec (endLine b) maxInt) as [Hmax|Hmax].
  - rewrite (lineLoop_diverges b Hmax) in Hrun by exact Hs. discriminate Hrun.
  - constructor; [exact Hmax|].
    destruct (lineLoop fuel b (startLine b) total coveredLines w) as [[[t c] o]|];
      [|discriminate Hrun].
    exact (IH _ _ _ _ Hint Hrun).
Qed.

(** X9.  For blocks whose lines are [int]s, the emitter returns, given
    fuel enough, exactly when no block ends at the largest [int]; with such
    a block no fuel makes it return. *)
Theorem writeLcovRecord_returns_iff filePath blocks w :
  Forall (fun b => inInt (startLine b) /\ inInt (endLine b)) blocks ->
  (exists fuel out, writeLcovRecord fuel filePath blocks w = Some out)
  <-> Forall (fun b => endLine b <> maxInt) blocks.
Proof.
  intros Hint. split.
  - intros (fuel & out & Hrun). unfold writeLcovRecord in Hrun.
    destruct (blockLoop fuel blocks 0 0 _) as [r|] eqn:E; [|discriminate Hrun].
    exact (blockLoop_returns _ _ _ _ _ _ Hint E).
  - intros Hmax. exists (S (Z.to_nat (totalLines blocks))). eexists.
    apply writeLcovRecord_spec; [|lia].
    apply Forall_notMax_blockOk; assumption.
Qed.

Lemma hitLines_all blocks :
  Forall (fun b => 0 < covered b) blocks -> hitLines blocks = totalLines blocks.
Proof.
  induction 1 as [|b blocks Hb _ IH]; [reflexivity|]. cbn [hitLines totalLines fold_right].
  fold (hitLines blocks). fold (totalLines blocks).
  replace (0 <? covered b) with true by (symmetry; apply Z.ltb_lt; exact Hb).
  rewrite IH. reflexivity.
Qed.

Lemma hitLines_none blocks :
  Forall (fun b => covered b <= 0) blocks -> hitLines blocks = 0.
Proof.
  induction 1 as [|b blocks Hb _ IH]; [reflexivity|]. cbn [hitLines fold_right].
  fold (hitLines blocks).
  replace (0 <? covered b) with false by (symmetry; apply Z.ltb_ge; exact Hb).
  rewrite IH. reflexivity.
Qed.

(** X10.  In the record of a file whose blocks end below the largest [int]
    and hold fewer than [2 ^ 63] lines, the total [LH] equals [LF] when
    every block has a positive hit count, and is zero when no block has
    one (a negative count counts as not hit). *)
Theorem writeLcovRecord_all_or_nothing filePath blocks w fuel :
  Forall blockOk blocks ->
  totalLines blocks <= maxInt ->
  (Z.to_nat (totalLines blocks) < fuel)%nat ->
  (Forall (fun b => 0 < covered b) blocks ->
   writeLcovRecord fuel filePath blocks w
   = Some (w ++ ["TN:" +:+ newline; "SF:" +:+ filePath +:+ newline]
             ++ flat_map daLines blocks
             ++ ["LF:" +:+ strconv.Itoa (totalLines blocks) +:+ newline;
                 "LH:" +:+ strconv.Itoa (totalLines blocks) +:+ newline;
                 "end_of_record" +:+ newline]))
  /\ (Forall (fun b => covered b <= 0) blocks ->
      writeLcovRecord fuel filePath blocks w
      = Some (w ++ ["TN:" +:+ newline; "SF:" +:+ filePath +:+ newline]
                ++ flat_map daLines blocks
                ++ ["LF:" +:+ strconv.Itoa (totalLines blocks) +:+ newline;
                    "LH:" +:+ strconv.Itoa 0 +:+ newline;
                    "end_of_record" +:+ newline])).
Proof.
  intros Hok Hmax Hfuel.
  pose proof (totalLines_nonneg blocks) as Hnn.
  assert (Hmin : minInt <= 0) by (cbv; discriminate).
  assert (H0 : inInt 0) by (unfold inInt; cbv; split; discriminate).
  split; intros Hc; rewrite writeLcovRecord_spec by assumption.
  - rewrite (hitLines_all blocks Hc), !wrap_id by (unfold inInt; lia). reflexivity.
  - rewrite (hitLines_none blocks Hc), (wrap_id 0 H0), wrap_id by (unfold inInt; lia).
    reflexivity.
Qed.

(** ** Scanning *)

Definition noNewline (l : string) : Prop := strings.Count l "010" = 0%nat.

Lemma rawLines_line l : forall t,
  noNewline l -> rawLines (l +:+ String "010" t) = l :: rawLines t.
Proof.
  unfold noNewline. induction l as [|c l IH]; intros t H.
  - rewrite append_nil_l. reflexivity.
  - rewrite append_cons. rewrite Count_cons in H. cbn [rawLines].
    destruct (Ascii.eqb c "010"); [discriminate H|]. rewrite IH by exact H.
    reflexivity.
Qed.

Lemma rawLines_unlines lines :
  Forall noNewline lines -> rawLines (unlines lines) = lines.
Proof.
  induction 1 as [|l lines Hl _ IH]; [reflexivity|].
  cbn [unlines fold_right]. fold (unlines lines).
  rewrite rawLines_line by exact Hl. rewrite IH. reflexivity.
Qed.

Lemma rawLines_newline s :
  rawLines (s +:+ String "010" EmptyString) = rawLines s
  \/ rawLines (s +:+ String "010" EmptyString) = rawLines s ++ [EmptyString].
Proof.
  induction s as [|c s IH]; [right; reflexivity|].
  rewrite append_cons. cbn [rawLines]. destruct (Ascii.eqb c "010").
  - destruct IH as [-> | ->]; [left | right]; reflexivity.
  - destruct IH as [-> | ->]; [left; reflexivity|].
    destruct (rawLines s) as [|l ls]; [left | right]; reflexivity.
Qed.

Lemma scannable_app a b :
  scannable (a ++ b)
  = if forallb fitsBuffer a then a ++ scannable b else scannable a.
Proof.
  induction a as [|l a IH]; [reflexivity|]. cbn [app scannable forallb].
  destruct (fitsBuffer l); [|reflexivity]. cbn [andb]. rewrite IH.
  destruct (forallb fitsBuffer a); reflexivity.
Qed.

Lemma scannable_fits a : forallb fitsBuffer a = true -> scannable a = a.
Proof.
  induction a as [|l a IH]; [reflexivity|]. cbn [scannable forallb].
  destruct (fitsBuffer l); [|discriminate]. intros H. rewrite (IH H). reflexivity.
Qed.

Lemma Count_dropCR s c :
  Ascii.eqb "013" c = false -> strings.Count (dropCR s) c = strings.Count s c.
Proof.
  intros Hc. induction s as [|x s IH]; [reflexivity|].
  destruct s as [|y s'].
  - cbn [dropCR]. destruct (Ascii.eqb x "013") eqn:E; [|reflexivity].
    apply Ascii.eqb_eq in E. subst x. cbn [strings.Count]. rewrite Hc. reflexivity.
  - change (dropCR (String x (String y s'))) with (String x (dropCR (String y s'))).
    rewrite !(Count_cons x). rewrite IH. reflexivity.
Qed.

Section Aggregation.

Variable build_Import : string -> importResult.
Variable isDir : string -> bool.

Lemma scanLoop_app l1 : forall l2 blocks st,
  scanLoop build_Import isDir (l1 ++ l2) blocks st
  = match scanLoop build_Import isDir l1 blocks st with
    | (Returns blocks', st') => scanLoop build_Import isDir l2 blocks' st'
    | (Panics, st') => (Panics, st')
    end.
Proof.
  induction l1 as [|line l1 IH]; intros l2 blocks st; [reflexivity|].
  cbn [app scanLoop].
  destruct (parseCoverageLine build_Import isDir line st)
    as [[[[f [b|]] [|]]|] st']; try apply IH. reflexivity.
Qed.

(** The lines the parser turns down before it looks at the range. *)
Definition ignoredLine (line : string) : Prop :=
  strings.HasPrefix line "mode:" = true \/ strings.Count line ":" <> 1%nat.

Lemma parseCoverageLine_ignored line st :
  ignoredLine line ->
  parseCoverageLine build_Import isDir line st
  = (Returns (EmptyString, None, false), st).
Proof.
  intros [H|H].
  - rewrite parseCoverageLine_cases, H. reflexivity.
  - apply parseCoverageLine_colon_mismatch, H.
Qed.

Lemma scanLoop_ignored line rest blocks st :
  ignoredLine line ->
  scanLoop build_Import isDir (line :: rest) blocks st
  = scanLoop build_Import isDir rest blocks st.
Proof.
  intros H. cbn [scanLoop]. rewrite (parseCoverageLine_ignored line st H).
  reflexivity.
Qed.

(** X11.  A newline added at the end of the profile changes nothing: the
    last line of the input need not be ended by a newline, and an empty
    last line is dropped. *)
Theorem parseCoverage_final_newline input failure st :
  parseCoverage build_Import isDir (input +:+ String "010" EmptyString) failure st
  = parseCoverage build_Import isDir input failure st.
Proof.
  unfold parseCoverage, scanLines.
  destruct (rawLines_newline input) as [-> | ->]; [reflexivity|].
  rewrite forallb_app, scannable_app. cbn [forallb].
  change (fitsBuffer EmptyString) with true. rewrite andb_true_r.
  destruct (forallb fitsBuffer (rawLines input)) eqn:E; [|reflexivity].
  change (scannable [EmptyString]) with [EmptyString].
  rewrite (scannable_fits _ E), map_app, scanLoop_app.
  destruct (scanLoop build_Import isDir (map dropCR (rawLines input)) ∅ st)
    as [[blocks|] st']; [|reflexivity].
  cbn [map dropCR negb]. rewrite scanLoop_ignored; [reflexivity|].
  right. cbn. lia.
Qed.

(** X12.  A mode header, and a line that does not hold exactly one colon
    (an empty line among them), is dropped wherever it stands: the result
    and the cache are those of the profile without that line. *)
Theorem parseCoverage_drops_ignored_lines before line after failure st :
  Forall noNewline (before ++ line :: after) ->
  fitsBuffer line = true ->
  ignoredLine (dropCR line) ->
  parseCoverage build_Import isDir (unlines (before ++ line :: after)) failure st
  = parseCoverage build_Import isDir (unlines (before ++ after)) failure st.
Proof.
  intros Hnl Hfit Hign.
  assert (Hnl' : Forall noNewline (before ++ after)).
  { apply Forall_app in Hnl as [H1 H2]. apply Forall_cons in H2 as [_ H2].
    apply Forall_app. split; assumption. }
  unfold parseCoverage, scanLines.
  rewrite (rawLines_unlines _ Hnl), (rawLines_unlines _ Hnl').
  rewrite !forallb_app, !scannable_app. cbn [forallb scannable]. rewrite Hfit.
  cbn [andb]. destruct (forallb fitsBuffer before); [|reflexivity].
  rewrite !map_app, !scanLoop_app. cbn [map].
  destruct (scanLoop build_Import isDir (map dropCR before) ∅ st)
    as [[blocks|] st']; [|reflexivity].
  rewrite (scanLoop_ignored _ _ _ _ Hign). reflexivity.
Qed.

(** X13.  A single line on which [parseCoverageLine] panics makes the whole
    aggregation panic, whatever stands before and after it, as long as the
    scanner reaches it: no grouping is returned. *)
Theorem parseCoverage_panics_with_one_line before line after failure st st0 :
  Forall noNewline (before ++ line :: after) ->
  forallb fitsBuffer (before ++ [line]) = true ->
  fst (parseCoverageLine build_Import isDir (dropCR line) st0) = Panics ->
  fst (parseCoverage build_Import isDir (unlines (before ++ line :: after)) failure st)
  = Panicked.
Proof.
  intros Hnl Hfit Hp. unfold parseCoverage, scanLines.
  rewrite (rawLines_unlines _ Hnl).
  change (before ++ line :: after) with (before ++ [line] ++ after).
  rewrite app_assoc, scannable_app, Hfit, map_app, scanLoop_app.
  rewrite map_app, scanLoop_app.
  destruct (scanLoop build_Import isDir (map dropCR before) ∅ st)
    as [[blocks|] st']; [|reflexivity].
  cbn [map scanLoop].
  assert (Hp' : fst (parseCoverageLine build_Import isDir (dropCR line) st') = Panics).
  { exact (parseCoverageLine_panics_any_state _ _ _ _ _ Hp). }
  destruct (parseCoverageLine build_Import isDir (dropCR line) st')
    as [[r|] st'']; [discriminate Hp' | reflexivity].
Qed.

(** X14.  A line that does not fit the buffer of the scanner (64 KiB or
    more before its newline) ends the run: the aggregation panics on an
    earlier line or is ended by [log.Fatal] with [bufio.ErrTooLong]; it
    returns no grouping and does not report the failure of the reader. *)
Theorem parseCoverage_line_too_long before line after failure st :
  Forall noNewline (before ++ line :: after) ->
  fitsBuffer line = false ->
  fst (parseCoverage build_Import isDir (unlines (before ++ line :: after)) failure st)
  = Panicked
  \/ fst (parseCoverage build_Import isDir (unlines (before ++ line :: after)) failure st)
     = Fatal ErrTooLong.
Proof.
  intros Hnl Hfit. unfold parseCoverage, scanLines.
  rewrite (rawLines_unlines _ Hnl).
  rewrite forallb_app. cbn [forallb]. rewrite Hfit, andb_false_r. cbn [negb].
  destruct (scanLoop build_Import isDir _ ∅ st) as [[blocks|] st'];
    [right | left]; reflexivity.
Qed.

End Aggregation.

(** ** The grouping *)

(** The blocks a list of pairs holds for the file [f], in their order. *)
Definition blocksOf (f : string) (pairs : list (string * block)) : list block :=
  map snd (List.filter (fun p => String.eqb (fst p) f) pairs).

(** A line with a carriage return put before its newline. *)
Definition withCR (l : string) : string := l +:+ String "013" EmptyString.

Lemma dropCR_withCR l : dropCR (withCR l) = l.
Proof.
  unfold withCR. induction l as [|c l IH]; [reflexivity|].
  rewrite append_cons. destruct l as [|d l'].
  - reflexivity.
  - change (dropCR (String c (String d l' +:+ String "013" EmptyString)))
      with (String c (dropCR (String d l' +:+ String "013" EmptyString))).
    rewrite IH. reflexivity.
Qed.

Lemma noNewline_withCR l : noNewline l -> noNewline (withCR l).
Proof.
  unfold noNewline, withCR. intros H. rewrite Count_append, H. reflexivity.
Qed.

Section Grouping.

Variable build_Import : string -> importResult.
Variable isDir : string -> bool.

(** The file names and blocks of the lines [parseCoverageLine] accepts, the
    cache being handed from line to line. *)
Fixpoint accepted (lines : list string) (st : state) : list (string * block) :=
  match lines with
  | [] => []
  | line :: rest =>
      match parseCoverageLine build_Import isDir line st with
      | (Panics, _) => []
      | (Returns (f, Some b, true), st') => (f, b) :: accepted rest st'
      | (Returns _, st') => accepted rest st'
      end
  end.

Lemma scanLoop_groups lines : forall blocks st grouped st',
  scanLoop build_Import isDir lines blocks st = (Returns grouped, st') ->
  forall f,
    grouped !! f
    = match blocksOf f (accepted lines st) with
      | [] => blocks !! f
      | l => Some (default [] (blocks !! f) ++ l)
      end.
Proof.
  induction lines as [|line lines IH]; intros blocks st grouped st' H f.
  - cbn in H. inversion H. reflexivity.
  - cbn [scanLoop accepted] in *.
    destruct (parseCoverageLine build_Import isDir line st)
      as [[[[g [b|]] [|]]|] st1]; try discriminate H; try exact (IH _ _ _ _ H f).
    rewrite (IH _ _ _ _ H f). unfold blocksOf, addBlock.
    cbn [List.filter fst].
    destruct (String.eqb g f) eqn:E.
    + apply String.eqb_eq in E. subst g. rewrite lookup_insert_eq. cbn [map snd].
      destruct (map snd _) as [|b' l]; [reflexivity|].
      f_equal. symmetry. apply (app_assoc _ [b] (b' :: l)).
    + apply String.eqb_neq in E. rewrite lookup_insert_ne by exact E.
      reflexivity.
Qed.

(** X15.  When the aggregation returns, the grouping maps each file name to
    the blocks of the accepted lines with that name, in the order of the
    lines and with repetitions; a name that no accepted line has is no key
    of the grouping, so no key has an empty block list. *)
Theorem parseCoverage_groups_in_order input failure st grouped st' :
  parseCoverage build_Import isDir input failure st = (Done grouped, st') ->
  forall f,
    grouped !! f
    = match blocksOf f (accepted (fst (scanLines input)) st) with
      | [] => None
      | l => Some l
      end.
Proof.
  unfold parseCoverage. destruct (scanLines input) as [lines tooLong].
  cbn [fst].
  destruct (scanLoop build_Import isDir lines ∅ st) as [[blocks|] st1] eqn:E;
    [|discriminate].
  destruct tooLong; [discriminate|]. destruct failure; [discriminate|].
  intros H f. inversion H. subst grouped st1.
  rewrite (scanLoop_groups _ _ _ _ _ E f), lookup_empty. reflexivity.
Qed.

(** X16.  Lines ended by a carriage return and a newline are read like
    lines ended by a newline alone. *)
Theorem parseCoverage_crlf lines failure st :
  Forall noNewline lines ->
  forallb fitsBuffer (map withCR lines) = true ->
  map dropCR lines = lines ->
  parseCoverage build_Import isDir (unlines (map withCR lines)) failure st
  = parseCoverage build_Import isDir (unlines lines) failure st.
Proof.
  intros Hnl Hfit Hcr.
  assert (Hnl' : Forall noNewline (map withCR lines)).
  { apply Forall_map. eapply Forall_impl; [exact Hnl|]. apply noNewline_withCR. }
  assert (Hfit' : forallb fitsBuffer lines = true).
  { clear -Hfit. induction lines as [|l lines IH]; [reflexivity|].
    cbn [map forallb] in *. apply andb_true_iff in Hfit as [H1 H2].
    rewrite (IH H2), andb_true_r. unfold fitsBuffer, withCR in *.
    apply Z.ltb_lt in H1. apply Z.ltb_lt.
    rewrite filepath.length_append in H1. lia. }
  unfold parseCoverage, scanLines.
  rewrite (rawLines_unlines _ Hnl), (rawLines_unlines _ Hnl').
  rewrite Hfit, Hfit', (scannable_fits _ Hfit), (scannable_fits _ Hfit').
  rewrite Hcr, map_map.
  rewrite (map_ext (fun l => dropCR (withCR l)) (fun l => l) dropCR_withCR).
  rewrite map_id. reflexivity.
Qed.

End Grouping.

(** ** The report *)

Lemma writeLcovRecord_frame fuel filePath blocks w w' :
  writeLcovRecord fuel filePath blocks (w ++ w')
  = (fun out => w ++ out) <$> writeLcovRecord fuel filePath blocks w'.
Proof.
  unfold writeLcovRecord. rewrite <- !(app_assoc w).
  rewrite (blockLoop_frame fuel blocks 0 0 w).
  destruct (blockLoop fuel blocks 0 0 _) as [[[t c] o]|]; [|reflexivity].
  simpl. rewrite <- !app_assoc. reflexivity.
Qed.

(** The records of the entries of [order], each as it is written to an
    empty writer. *)
Fixpoint recordsOf (fuel : nat) (order : list (string * list block))
    : option (list (list string)) :=
  match order with
  | [] => Some []
  | (file, fileBlocks) :: rest =>
      match writeLcovRecord fuel file fileBlocks [] with
      | None => None
      | Some record =>
          match recordsOf fuel rest with
          | None => None
          | Some records => Some (record :: records)
          end
      end
  end.

Lemma lcovIn_recordsOf fuel order : forall w,
  lcovIn fuel order w = (fun records => w ++ concat records) <$> recordsOf fuel order.
Proof.
  induction order as [|[file fileBlocks] order IH]; intros w; cbn [lcovIn recordsOf].
  - simpl. rewrite app_nil_r. reflexivity.
  - pose proof (writeLcovRecord_frame fuel file fileBlocks w []) as H.
    rewrite app_nil_r in H. rewrite H.
    destruct (writeLcovRecord fuel file fileBlocks []) as [record|]; [|reflexivity].
    simpl. rewrite IH. destruct (recordsOf fuel order) as [records|]; [|reflexivity].
    simpl. rewrite <- app_assoc. reflexivity.
Qed.

Lemma recordsOf_Forall2 fuel order : forall records,
  recordsOf fuel order = Some records
  <-> Forall2 (fun e record => writeLcovRecord fuel (fst e) (snd e) [] = Some record)
        order records.
Proof.
  induction order as [|[file fileBlocks] order IH]; intros records; cbn [recordsOf].
  - split.
    + intros H. inversion H. constructor.
    + intros H. inversion H. reflexivity.
  - split.
    + destruct (writeLcovRecord fuel file fileBlocks []) as [record|] eqn:E;
        [|discriminate].
      destruct (recordsOf fuel order) as [rs|]; [|discriminate].
      intros H. inversion H. constructor; [exact E | apply IH; reflexivity].
    + intros H. inversion H as [|e record l rs Hr Hrest]. subst.
      cbn [fst snd] in Hr. rewrite Hr. apply IH in Hrest. rewrite Hrest.
      reflexivity.
Qed.

Lemma recordsOf_Permutation fuel order1 order2 :
  order1 ≡ₚ order2 ->
  forall records1, recordsOf fuel order1 = Some records1 ->
  exists records2, recordsOf fuel order2 = Some records2 /\ records2 ≡ₚ records1.
Proof.
  induction 1 as [|[f bs] l1 l2 _ IH|[f bs] [g cs] l|l1 l2 l3 _ IH1 _ IH2];
    intros records1 H.
  - exists records1. split; [exact H | reflexivity].
  - cbn [recordsOf] in *.
    destruct (writeLcovRecord fuel f bs []) as [r|]; [|discriminate].
    destruct (recordsOf fuel l1) as [rs|]; [|discriminate].
    destruct (IH rs eq_refl) as (rs2 & -> & Hp). inversion H. subst.
    eexists. split; [reflexivity|]. constructor. exact Hp.
  - cbn [recordsOf] in *.
    destruct (writeLcovRecord fuel g cs []) as [rg|]; [|discriminate].
    destruct (writeLcovRecord fuel f bs []) as [rf|]; [|discriminate].
    destruct (recordsOf fuel l) as [rs|]; [|discriminate].
    inversion H. subst. eexists. split; [reflexivity|]. apply perm_swap.
  - destruct (IH1 _ H) as (rs2 & H2 & Hp2).
    destruct (IH2 _ H2) as (rs3 & H3 & Hp3).
    exists rs3. split; [exact H3|]. etransitivity; eassumption.
Qed.

Lemma concat_Permutation (A : Type) (l1 l2 : list (list A)) :
  l1 ≡ₚ l2 -> concat l1 ≡ₚ concat l2.
Proof.
  induction 1 as [|x l1 l2 _ IH|x y l|l1 l2 l3 _ IH1 _ IH2]; cbn [concat].
  - reflexivity.
  - apply Permutation_app_head, IH.
  - rewrite !app_assoc. apply Permutation_app_tail, Permutation_app_comm.
  - etransitivity; eassumption.
Qed.

(** X17.  The report is made of one record for each file of the grouping,
    the files taken in some order: each record is what [writeLcovRecord]
    writes for that file to an empty writer, and nothing stands between
    the records. *)
Theorem lcov_one_record_per_file fuel blocks out :
  lcov fuel blocks out
  <-> exists order records,
        order ≡ₚ map_to_list blocks
        /\ Forall2
             (fun e record => writeLcovRecord fuel (fst e) (snd e) [] = Some record)
             order records
        /\ out = concat records.
Proof.
  unfold lcov. split.
  - intros (order & Hp & Hrun). rewrite lcovIn_recordsOf in Hrun.
    destruct (recordsOf fuel order) as [records|] eqn:E; [|discriminate Hrun].
    exists order, records. split; [exact Hp|]. split; [apply recordsOf_Forall2, E|].
    simpl in Hrun. inversion Hrun. reflexivity.
  - intros (order & records & Hp & Hrec & ->). exists order. split; [exact Hp|].
    apply recordsOf_Forall2 in Hrec. rewrite lcovIn_recordsOf, Hrec. reflexivity.
Qed.

(** X18.  The order in which the map is ranged over decides neither
    whether the report is completed nor which lines it holds: when [lcov]
    returns for one order it returns for every order of the files, with the
    same lines rearranged. *)
Theorem lcov_in_any_order fuel blocks out :
  lcov fuel blocks out ->
  forall order,
    order ≡ₚ map_to_list blocks ->
    exists out', lcovIn fuel order [] = Some out' /\ out' ≡ₚ out.
Proof.
  intros (order0 & Hp0 & Hrun) order Hp. rewrite lcovIn_recordsOf in Hrun.
  destruct (recordsOf fuel order0) as [records0|] eqn:E; [|discriminate Hrun].
  simpl in Hrun. inversion Hrun. subst out.
  assert (Hpp : order0 ≡ₚ order) by (rewrite Hp0, Hp; reflexivity).
  destruct (recordsOf_Permutation fuel _ _ Hpp _ E) as (records & Hrec & Hperm).
  exists (concat records). split.
  - rewrite lcovIn_recordsOf, Hrec. reflexivity.
  - apply concat_Permutation, Hperm.
Qed.

Lemma lcovIn_more_fuel fuel extra order : forall w out,
  lcovIn fuel order w = Some out -> lcovIn (fuel + extra) order w = Some out.
Proof.
  induction order as [|[file fileBlocks] order IH]; intros w out; [auto|].
  cbn [lcovIn].
  destruct (writeLcovRecord fuel file fileBlocks w) as [w'|] eqn:E; [|discriminate].
  rewrite (writeLcovRecord_more_fuel _ extra _ _ _ _ E). apply IH.
Qed.

Lemma lcovIn_returns fuel order : forall w out,
  Forall (fun e => Forall (fun b => inInt (startLine b) /\ inInt (endLine b)) (snd e))
    order ->
  lcovIn fuel order w = Some out ->
  Forall (fun e => Forall (fun b => endLine b <> maxInt) (snd e)) order.
Proof.
  induction order as [|[file fileBlocks] order IH]; intros w out Hint Hrun;
    [constructor|].
  apply Forall_cons in Hint as [Hint1 Hint]. cbn [lcovIn] in Hrun.
  destruct (writeLcovRecord fuel file fileBlocks w) as [w'|] eqn:E;
    [|discriminate Hrun].
  constructor; [|exact (IH _ _ Hint Hrun)].
  cbn [snd] in *. unfold writeLcovRecord in E.
  destruct (blockLoop fuel fileBlocks 0 0 _) as [r|] eqn:E'; [|discriminate E].
  exact (blockLoop_returns _ _ _ _ _ _ Hint1 E').
Qed.

Lemma lcovIn_enough_fuel order :
  Forall (fun e => Forall blockOk (snd e)) order ->
  exists fuel, forall w, exists out, lcovIn fuel order w = Some out.
Proof.
  induction 1 as [|[file fileBlocks] order Hok _ (fuel & IH)].
  - exists 0%nat. intros w. exists w. reflexivity.
  - cbn [snd] in Hok.
    exists (S (Z.to_nat (totalLines fileBlocks)) + fuel)%nat. intros w.
    cbn [lcovIn].
    rewrite (writeLcovRecord_more_fuel _ fuel _ _ _ _
               (writeLcovRecord_spec file fileBlocks w _ Hok (Nat.lt_succ_diag_r _))).
    match goal with |- context [lcovIn _ order ?v] => destruct (IH v) as (out & Hout) end.
    exists out. rewrite Nat.add_comm. apply lcovIn_more_fuel, Hout.
Qed.

(** X19.  For a grouping whose blocks have [int] lines, [lcov] completes
    the report, given fuel enough, exactly when no block of any file ends
    at the largest [int]: one such block in one file keeps the whole report
    from being completed, in whatever order the files are taken. *)
Theorem lcov_returns_iff (blocks : gmap string (list block)) :
  map_Forall (fun _ fileBlocks =>
                Forall (fun b => inInt (startLine b) /\ inInt (endLine b)) fileBlocks)
    blocks ->
  (exists fuel out, lcov fuel blocks out)
  <-> map_Forall (fun _ fileBlocks => Forall (fun b => endLine b <> maxInt) fileBlocks)
        blocks.
Proof.
  intros Hint. apply map_Forall_to_list in Hint. split.
  - intros (fuel & out & order & Hp & Hrun). apply map_Forall_to_list.
    rewrite <- Hp in Hint |- *.
    assert (Hint' : Forall (fun e => Forall (fun b => inInt (startLine b)
                                                  /\ inInt (endLine b)) (snd e)) order).
    { eapply Forall_impl; [exact Hint|]. intros [f bs] H. exact H. }
    eapply Forall_impl; [exact (lcovIn_returns _ _ _ _ Hint' Hrun)|].
    intros [f bs] H. exact H.
  - intros Hmax. apply map_Forall_to_list in Hmax.
    assert (Hok : Forall (fun e => Forall blockOk (snd e)) (map_to_list blocks)).
    { rewrite Forall_forall in Hint, Hmax. apply Forall_forall. intros [f bs] Hin.
      apply Forall_notMax_blockOk; [apply (Hint _ Hin) | apply (Hmax _ Hin)]. }
    destruct (lcovIn_enough_fuel _ Hok) as (fuel & Hrun).
    destruct (Hrun []) as (out & Hout).
    exists fuel, out, (map_to_list blocks). split; [reflexivity | exact Hout].
Qed.

(** ** Shortened names *)

Lemma HasPrefix_drop prefix : forall s,
  strings.HasPrefix s prefix = true ->
  s = prefix +:+ strings.drop (String.length prefix) s.
Proof.
  induction prefix as [|p prefix IH]; intros s H; [reflexivity|].
  destruct s as [|c s]; [discriminate H|]. cbn [strings.HasPrefix] in H.
  apply andb_true_iff in H as [Hc H]. apply Ascii.eqb_eq in Hc. subst c.
  rewrite append_cons. cbn [String.length strings.drop]. f_equal. apply IH, H.
Qed.

(** X20.  The name [getCoverallsSourceFileName] returns is the name it was
    given, or what is left of it behind the root that was found and the
    separator: putting the root and the separator before the result gives
    the name back.  Nothing else is ever cut off or changed. *)
Theorem getCoverallsSourceFileName_cuts_the_root isDir name :
  getCoverallsSourceFileName isDir name = name
  \/ exists root,
       findRepositoryRoot isDir name = (root, true)
       /\ name = root +:+ "/" +:+ getCoverallsSourceFileName isDir name.
Proof.
  unfold getCoverallsSourceFileName.
  destruct (findRepositoryRoot isDir name) as [root [|]]; [|left; reflexivity].
  unfold strings.TrimPrefix.
  destruct (strings.HasPrefix name (root +:+ "/")) eqn:E; [|left; reflexivity].
  right. exists root. split; [reflexivity|].
  rewrite <- append_assoc. apply HasPrefix_drop, E.
Qed.

(** ** Concrete inputs of the further properties *)

(** The sample profile: the mode header and two blocks of one file. *)
Definition exProfile : list string :=
  ["mode: set"; "example.com/pkg/file.go:3.10,5.2 2 1";
   "example.com/pkg/file.go:7.1,7.1 1 0"]%string.

(** A grouping of two files. *)
Definition exGrouping : gmap string (list block) :=
  {[ "pkg/a.go"%string := [mkBlock 3 10 5 2 2 1; mkBlock 7 1 7 1 1 0];
     "pkg/b.go"%string := [mkBlock 1 1 2 1 1 4] ]}.

(** A line of [n] letters. *)
Fixpoint letters (n : nat) : string :=
  match n with
  | O => EmptyString
  | S n => String "a" (letters n)
  end.

Lemma letters_length n : String.length (letters n) = n.
Proof. induction n as [|n IH]; [reflexivity|]. cbn [letters String.length]. rewrite IH. reflexivity. Qed.

Lemma letters_noNewline n : noNewline (letters n).
Proof. unfold noNewline. induction n as [|n IH]; [reflexivity|]. exact IH. Qed.

Lemma letters_too_long n :
  maxScanTokenSize <= Z.of_nat n -> fitsBuffer (letters n) = false.
Proof. intros H. unfold fitsBuffer. rewrite letters_length. apply Z.ltb_ge, H. Qed.

Lemma further_period_segments_are_ignored_witness :
  wellShaped "example.com/pkg/file.go" "3" "10" "5" "2" "2" "1"
  /\ parseCoverageLine exImport exIsDir
       (coverLine "example.com/pkg/file.go" "3" "10.7" "5" "2" "2" "1") initialState
     = parseCoverageLine exImport exIsDir
         (coverLine "example.com/pkg/file.go" "3" "10" "5" "2" "2" "1") initialState.
Proof.
  assert (Hshape : wellShaped "example.com/pkg/file.go" "3" "10" "5" "2" "2" "1")
    by (constructor; reflexivity).
  split; [exact Hshape|].
  refine (further_period_segments_are_ignored exImport exIsDir _ _ _ _ _ _ _
            "10.7" "2" initialState Hshape _ _).
  - right. exists "7"%string. split; reflexivity.
  - left. reflexivity.
Defined.

Lemma findRepositoryRoot_same_along_the_way_witness :
  findRepositoryRoot exIsDir "/home/u/repo/pkg/sub" = ("/home/u/repo"%string, true)
  /\ exists k,
       "/home/u/repo"%string = ancestor k "/home/u/repo/pkg/sub"
       /\ forall j, (j <= k)%nat ->
            findRepositoryRoot exIsDir (ancestor j "/home/u/repo/pkg/sub")
            = ("/home/u/repo"%string, true).
Proof.
  assert (H : findRepositoryRoot exIsDir "/home/u/repo/pkg/sub"
              = ("/home/u/repo"%string, true)) by (vm_compute; reflexivity).
  split; [exact H|].
  exact (findRepositoryRoot_same_along_the_way exIsDir _ _ H).
Defined.

Lemma writeLcovRecord_returns_iff_witness :
  Forall (fun b => inInt (startLine b) /\ inInt (endLine b))
    [mkBlock 3 10 5 2 2 1; mkBlock 7 1 maxInt 1 1 0]
  /\ ((exists fuel out,
         writeLcovRecord fuel "pkg/file.go"
           [mkBlock 3 10 5 2 2 1; mkBlock 7 1 maxInt 1 1 0] [] = Some out)
      <-> Forall (fun b => endLine b <> maxInt)
            [mkBlock 3 10 5 2 2 1; mkBlock 7 1 maxInt 1 1 0]).
Proof.
  assert (H : Forall (fun b => inInt (startLine b) /\ inInt (endLine b))
                [mkBlock 3 10 5 2 2 1; mkBlock 7 1 maxInt 1 1 0])
    by (repeat constructor; vm_compute; discriminate).
  split; [exact H|].
  exact (writeLcovRecord_returns_iff "pkg/file.go" _ [] H).
Defined.

Lemma writeLcovRecord_all_or_nothing_witness :
  Forall blockOk [mkBlock 3 10 5 2 2 1; mkBlock 7 1 7 1 1 4]
  /\ (Forall (fun b => 0 < covered b) [mkBlock 3 10 5 2 2 1; mkBlock 7 1 7 1 1 4] ->
      writeLcovRecord 10 "pkg/file.go" [mkBlock 3 10 5 2 2 1; mkBlock 7 1 7 1 1 4] []
      = Some ([] ++ ["TN:" +:+ newline; "SF:" +:+ "pkg/file.go" +:+ newline]
                ++ flat_map daLines [mkBlock 3 10 5 2 2 1; mkBlock 7 1 7 1 1 4]
                ++ ["LF:" +:+ strconv.Itoa
                                (totalLines [mkBlock 3 10 5 2 2 1; mkBlock 7 1 7 1 1 4])
                          +:+ newline;
                    "LH:" +:+ strconv.Itoa
                                (totalLines [mkBlock 3 10 5 2 2 1; mkBlock 7 1 7 1 1 4])
                          +:+ newline;
                    "end_of_record" +:+ newline])).
Proof.
  assert (Hok : Forall blockOk [mkBlock 3 10 5 2 2 1; mkBlock 7 1 7 1 1 4])
    by (repeat constructor; vm_compute; discriminate).
  split; [exact Hok|].
  refine (proj1 (writeLcovRecord_all_or_nothing "pkg/file.go" _ [] 10 Hok _ _)).
  - vm_compute. discriminate.
  - vm_compute. lia.
Defined.

Lemma parseCoverage_drops_ignored_lines_witness :
  Forall noNewline (["mode: set"%string] ++ "no colon here"%string :: tl exProfile)
  /\ ignoredLine (dropCR "no colon here")
  /\ parseCoverage exImport exIsDir
       (unlines (["mode: set"%string] ++ "no colon here"%string :: tl exProfile))
       None initialState
     = parseCoverage exImport exIsDir
         (unlines (["mode: set"%string] ++ tl exProfile)) None initialState.
Proof.
  assert (Hnl : Forall noNewline
                  (["mode: set"%string] ++ "no colon here"%string :: tl exProfile))
    by (repeat constructor).
  assert (Hign : ignoredLine (dropCR "no colon here"))
    by (right; vm_compute; discriminate).
  split; [exact Hnl|]. split; [exact Hign|].
  exact (parseCoverage_drops_ignored_lines exImport exIsDir _ _ _ None initialState
           Hnl eq_refl Hign).
Defined.

Lemma parseCoverage_panics_with_one_line_witness :
  Forall noNewline (exProfile ++ "x:1,2 3 4"%string :: exProfile)
  /\ fst (parseCoverageLine exImport exIsDir (dropCR "x:1,2 3 4") initialState) = Panics
  /\ fst (parseCoverage exImport exIsDir
            (unlines (exProfile ++ "x:1,2 3 4"%string :: exProfile)) None initialState)
     = Panicked.
Proof.
  assert (Hnl : Forall noNewline (exProfile ++ "x:1,2 3 4"%string :: exProfile))
    by (repeat constructor).
  assert (Hp : fst (parseCoverageLine exImport exIsDir (dropCR "x:1,2 3 4")
                      initialState) = Panics) by (vm_compute; reflexivity).
  split; [exact Hnl|]. split; [exact Hp|].
  refine (parseCoverage_panics_with_one_line exImport exIsDir _ _ _ None initialState
            initialState Hnl _ Hp).
  vm_compute. reflexivity.
Defined.

Lemma parseCoverage_line_too_long_witness :
  fitsBuffer (letters (Z.to_nat maxScanTokenSize)) = false
  /\ (fst (parseCoverage exImport exIsDir
             (unlines (exProfile ++ letters (Z.to_nat maxScanTokenSize) :: exProfile))
             None initialState) = Panicked
      \/ fst (parseCoverage exImport exIsDir
                (unlines (exProfile ++ letters (Z.to_nat maxScanTokenSize) :: exProfile))
                None initialState) = Fatal ErrTooLong).
Proof.
  assert (Hlong : fitsBuffer (letters (Z.to_nat maxScanTokenSize)) = false).
  { apply letters_too_long. rewrite Z2Nat.id; [reflexivity | discriminate]. }
  split; [exact Hlong|].
  refine (parseCoverage_line_too_long exImport exIsDir _ _ _ None initialState _ Hlong).
  apply Forall_app. split; [repeat constructor|].
  constructor; [apply letters_noNewline | repeat constructor].
Defined.

Lemma parseCoverage_groups_in_order_witness :
  parseCoverage exImport exIsDir (unlines exProfile) None initialState
  = (Done {[ "pkg/file.go"%string := [mkBlock 3 10 5 2 2 1; mkBlock 7 1 7 1 1 0] ]},
     mkState {[ "example.com/pkg/"%string := mkCacheResult "/home/u/repo/pkg/file.go" None ]}
             ["example.com/pkg/"%string])
  /\ forall f,
       ({[ "pkg/file.go"%string := [mkBlock 3 10 5 2 2 1; mkBlock 7 1 7 1 1 0] ]}
          : gmap string (list block)) !! f
       = match blocksOf f (accepted exImport exIsDir
                             (fst (scanLines (unlines exProfile))) initialState) with
         | [] => None
         | l => Some l
         end.
Proof.
  assert (H : parseCoverage exImport exIsDir (unlines exProfile) None initialState
              = (Done {[ "pkg/file.go"%string
                           := [mkBlock 3 10 5 2 2 1; mkBlock 7 1 7 1 1 0] ]},
                 mkState {[ "example.com/pkg/"%string
                              := mkCacheResult "/home/u/repo/pkg/file.go" None ]}
                         ["example.com/pkg/"%string]))
    by (vm_compute; reflexivity).
  split; [exact H|].
  exact (parseCoverage_groups_in_order exImport exIsDir _ _ _ _ _ H).
Defined.

Lemma parseCoverage_crlf_witness :
  Forall noNewline exProfile
  /\ map dropCR exProfile = exProfile
  /\ parseCoverage exImport exIsDir (unlines (map withCR exProfile)) None initialState
     = parseCoverage exImport exIsDir (unlines exProfile) None initialState.
Proof.
  assert (Hnl : Forall noNewline exProfile) by (repeat constructor).
  split; [exact Hnl|]. split; [reflexivity|].
  refine (parseCoverage_crlf exImport exIsDir _ None initialState Hnl _ eq_refl).
  vm_compute. reflexivity.
Defined.

Lemma lcov_in_any_order_witness :
  exists out,
    lcov 10 exGrouping out
    /\ forall order,
         order ≡ₚ map_to_list exGrouping ->
         exists out', lcovIn 10 order [] = Some out' /\ out' ≡ₚ out.
Proof.
  assert (H : lcov 10 exGrouping (default [] (lcovIn 10 (map_to_list exGrouping) []))).
  { exists (map_to_list exGrouping). split; [reflexivity|]. vm_compute. reflexivity. }
  eexists. split; [exact H|].
  exact (lcov_in_any_order 10 exGrouping _ H).
Defined.

Lemma lcov_returns_iff_witness :
  map_Forall (fun _ fileBlocks =>
                Forall (fun b => inInt (startLine b) /\ inInt (endLine b)) fileBlocks)
    exGrouping
  /\ ((exists fuel out, lcov fuel exGrouping out)
      <-> map_Forall
            (fun _ fileBlocks => Forall (fun b => endLine b <> maxInt) fileBlocks)
            exGrouping).
Proof.
  assert (H : map_Forall
                (fun _ fileBlocks =>
                   Forall (fun b => inInt (startLine b) /\ inInt (endLine b)) fileBlocks)
                exGrouping).
  { unfold exGrouping. apply map_Forall_insert_2; [|apply map_Forall_singleton];
      repeat constructor; vm_compute; discriminate. }
  split; [exact H|]. exact (lcov_returns_iff exGrouping H).
Defined.

(** * Sample runs *)

Example Split_ex1 : strings.Split "a:b:c" ":" = ["a"; "b"; "c"]%string.
Proof. reflexivity. Qed.
Example Split_ex2 : strings.Split "" ":" = [""%string].
Proof. reflexivity. Qed.
Example Atoi_ex1 : strconv.Atoi "-42" = (-42, None).
Proof. reflexivity. Qed.
Example Atoi_ex2 : strconv.Atoi "99999999999999999999" = (maxInt, Some strconv.ErrRange).
Proof. reflexivity. Qed.
Example Atoi_ex3 : strconv.Atoi "9223372036854775808" = (maxInt, Some strconv.ErrRange).
Proof. reflexivity. Qed.
Example Atoi_ex4 : strconv.Atoi "12x" = (0, Some strconv.ErrSyntax).
Proof. reflexivity. Qed.
Example Atoi_ex5 :
  strconv.Atoi "99999999999999999999x" = (maxInt, Some strconv.ErrRange).
Proof. reflexivity. Qed.
Example Atoi_ex6 :
  strconv.Atoi "18446744073709551615x" = (0, Some strconv.ErrSyntax).
Proof. reflexivity. Qed.
Example Itoa_ex1 : strconv.Itoa (-9223372036854775808) = "-9223372036854775808"%string.
Proof. vm_compute. reflexivity. Qed.
Example Itoa_ex2 : strconv.Itoa 0 = "0"%string.
Proof. vm_compute. reflexivity. Qed.
Example Clean_ex1 : filepath.Clean "a//b/./c/.." = "a/b"%string.
Proof. reflexivity. Qed.
Example Clean_ex2 : filepath.Clean "/../a/" = "/a"%string.
Proof. reflexivity. Qed.
Example Clean_ex3 : filepath.Clean "../../a/.." = "../.."%string.
Proof. reflexivity. Qed.
Example Clean_ex4 : filepath.Clean "a/.." = "."%string.
Proof. reflexivity. Qed.
Example Clean_ex5 : filepath.Clean "abc/def/../../.." = ".."%string.
Proof. reflexivity. Qed.
Example Clean_ex6 : filepath.Clean "/abc/def/../../..x/.y" = "/..x/.y"%string.
Proof. reflexivity. Qed.
Example Clean_ex7 :
  map filepath.Clean ["abc/../../././../def"; "abc//./../def"; "/abc/def/../../.."; "//abc"; "abc/"; ""]%string
  = ["../../def"; "def"; "/"; "/abc"; "abc"; "."]%string.
Proof. reflexivity. Qed.
Example Dir_ex1 : map filepath.Dir ["/a/r"; "a"; "/"; ""; "/a"; "a/b/"; "../x"; "."]%string
  = ["/a"; "."; "/"; "."; "/"; "a/b"; ".."; "."]%string.
Proof. reflexivity. Qed.
Example Join_ex1 : filepath.Join "/a" ".git" = "/a/.git"%string /\ filepath.Join "/" ".git" = "/.git"%string
  /\ filepath.Join "" ".git" = ".git"%string /\ filepath.Join "/a/b" "" = "/a/b"%string.
Proof. repeat split; reflexivity. Qed.
Example fpSplit_ex1 : filepath.Split "example.com/pkg/file.go" = ("example.com/pkg/", "file.go")%string
  /\ filepath.Split "file.go" = ("", "file.go")%string /\ filepath.Split "a/" = ("a/", "")%string.
Proof. repeat split; reflexivity. Qed.

Example parse_ex1 :
  parseCoverageLine exImport exIsDir "example.com/pkg/file.go:3.10,5.2 2 1" initialState
  = (Returns ("pkg/file.go"%string, Some (mkBlock 3 10 5 2 2 1), true),
     mkState {[ "example.com/pkg/"%string := mkCacheResult "/home/u/repo/pkg/file.go" None ]}
             ["example.com/pkg/"%string]).
Proof. vm_compute. reflexivity. Qed.
Example parse_ex2 :
  fst (parseCoverageLine exImport exIsDir "x:1,2 3 4" initialState) = Panics.
Proof. vm_compute. reflexivity. Qed.
Example parse_ex3 :
  fst (parseCoverageLine exImport exIsDir
         "example.com/pkg/file.go:3.10.7,5.2 2 1" initialState)
  = Returns ("pkg/file.go"%string, Some (mkBlock 3 10 5 2 2 1), true).
Proof. vm_compute. reflexivity. Qed.
Example parse_ex4 :
  parseCoverageLine exImport exIsDir "mode: set" initialState
  = (Returns (EmptyString, None, false), initialState).
Proof. vm_compute. reflexivity. Qed.
Example parse_ex5 :
  fst (parseCoverageLine exImport exIsDir "unknown.org/p/f.go:1.1,2.2 1 1" initialState)
  = Returns (EmptyString, None, false).
Proof. vm_compute. reflexivity. Qed.
Example emit_ex1 :
  writeLcovRecord 10 "pkg/file.go" [mkBlock 3 10 5 2 2 1; mkBlock 7 1 7 1 1 0] []
  = Some (map (fun s => s +:+ newline)
      ["TN:"; "SF:pkg/file.go"; "DA:3,1"; "DA:4,1"; "DA:5,1"; "DA:7,0"; "LF:4"; "LH:3"; "end_of_record"]%string).
Proof. vm_compute. reflexivity. Qed.
